(** * Knowledge resolution pipeline of the Aarya assistant

    A shallow embedding of [services/botBrain.ts] (normalize,
    calculateScore, findBestResponse, getRandomDefaultResponse),
    [services/gemini.ts] (getGeminiResponse) and the two functions of
    [App.tsx] that drive a resolution (processEmotionAndText,
    handleUserMessage), followed by the properties the specification
    states about them. *)

From Stdlib Require Import List NArith ZArith QArith Qround Bool Arith Lia.
From Stdlib Require Import Ascii String DecimalString.
From Stdlib Require Import Permutation Sorted.
Import ListNotations.

Close Scope Q_scope.
Open Scope nat_scope.
Open Scope list_scope.

(** ** JavaScript strings

    A JavaScript string is a sequence of UTF-16 code units; [length],
    indexing, the regular expressions without the [u] flag, [includes],
    [split] and [trim] all work on code units. *)

Module JS.

Definition unit16 := N.
Definition jsstring := list unit16.

(** An ASCII literal of the source, as code units. *)
Definition lit (s : string) : jsstring :=
  List.map N_of_ascii (list_ascii_of_string s).

Definition inRange (lo hi c : N) : bool := ((lo <=? c) && (c <=? hi))%N.

Definition SP : unit16 := 32%N.

Definition isUpperAscii (c : unit16) : bool := inRange 65 90 c.
Definition isLowerAscii (c : unit16) : bool := inRange 97 122 c.
Definition isDigit (c : unit16) : bool := inRange 48 57 c.

(** [\w] of a regular expression without the [u] flag: [A-Za-z0-9_]. *)
Definition isWordChar (c : unit16) : bool :=
  isLowerAscii c || isUpperAscii c || isDigit c || (c =? 95)%N.

(** [\s], which is also the set [trim] strips: the WhiteSpace and
    LineTerminator code points of ECMAScript. *)
Definition isSpace (c : unit16) : bool :=
  inRange 9 13 c || (c =? 32)%N || (c =? 160)%N || (c =? 5760)%N
  || inRange 8192 8202 c || (c =? 8232)%N || (c =? 8233)%N
  || (c =? 8239)%N || (c =? 8287)%N || (c =? 12288)%N || (c =? 65279)%N.

(** [String.prototype.toLowerCase], one code unit at a time.  Basic Latin
    follows the language definition.  Outside Basic Latin exactly two code
    points have a lower case that reaches back into ASCII: U+0130 (capital
    I with dot above, lower case [i] followed by U+0307) and U+212A (the
    Kelvin sign, lower case [k]).  Every other entry of the Unicode table
    sends a code unit outside ASCII to one or more code units outside
    ASCII; those entries are left out, the code unit staying in place,
    which [normalize] cannot tell apart (see [normalize_case_table]
    below). *)
Definition lowerUnit (c : unit16) : jsstring :=
  if isUpperAscii c then [(c + 32)%N]
  else if (c =? 304)%N then [105%N; 775%N]
  else if (c =? 8490)%N then [107%N]
  else [c].

Definition toLowerCase (s : jsstring) : jsstring := flat_map lowerUnit s.

Fixpoint streq (a b : jsstring) : bool :=
  match a, b with
  | [], [] => true
  | x :: a', y :: b' => (x =? y)%N && streq a' b'
  | _, _ => false
  end.

(** A string is truthy when it is not empty. *)
Definition truthy (s : jsstring) : bool :=
  match s with [] => false | _ :: _ => true end.

Fixpoint startsWith (pat s : jsstring) : bool :=
  match pat, s with
  | [], _ => true
  | p :: pat', c :: s' => (p =? c)%N && startsWith pat' s'
  | _ :: _, [] => false
  end.

(** [s.includes(pat)] *)
Fixpoint includes (s pat : jsstring) : bool :=
  startsWith pat s
  || match s with
     | [] => false
     | _ :: s' => includes s' pat
     end.

(** [s.replace(pat, rep)] with a string pattern: the first occurrence
    only.  The source only passes the empty replacement, so the [$]
    patterns of a replacement string play no part. *)
Fixpoint replace (s pat rep : jsstring) : jsstring :=
  if startsWith pat s then rep ++ skipn (List.length pat) s
  else match s with
       | [] => []
       | c :: s' => c :: replace s' pat rep
       end.

Fixpoint dropWhile (p : unit16 -> bool) (s : jsstring) : jsstring :=
  match s with
  | [] => []
  | c :: s' => if p c then dropWhile p s' else s
  end.

Definition trimStart (s : jsstring) : jsstring := dropWhile isSpace s.
Definition trimEnd (s : jsstring) : jsstring := rev (dropWhile isSpace (rev s)).

(** [s.trim()] *)
Definition trim (s : jsstring) : jsstring := trimEnd (trimStart s).

(** [s.split(sep)] for a separator of one code unit. *)
Fixpoint split (sep : unit16) (s : jsstring) : list jsstring :=
  match s with
  | [] => [[]]
  | c :: s' =>
      if (c =? sep)%N then [] :: split sep s'
      else match split sep s' with
           | t :: ts => (c :: t) :: ts
           | [] => [[c]]
           end
  end.

(** [s.replace(/[^\w\s]/g, ' ')] *)
Definition replacePunct (s : jsstring) : jsstring :=
  List.map (fun c => if isWordChar c || isSpace c then c else SP) s.

(** [s.replace(/\s+/g, ' ')]: a left-to-right scan; [inRun] tells that the
    code unit before the current one was white space, so that the run it
    belongs to has already produced its single space. *)
Fixpoint collapseFrom (inRun : bool) (s : jsstring) : jsstring :=
  match s with
  | [] => []
  | c :: s' =>
      if isSpace c
      then (if inRun then collapseFrom true s' else SP :: collapseFrom true s')
      else c :: collapseFrom false s'
  end.

Definition collapseSpaces (s : jsstring) : jsstring := collapseFrom false s.

(** *** Matching [new RegExp('\\b' + kw + '\\b', 'i')]

    The pattern is only ever built from a normalized keyword, whose code
    units are in [[a-z0-9_ ]] (see [normalize_charset] below): none of them
    is a metacharacter, so the pattern is the literal [kw] between two word
    boundaries.  With the [i] flag and no [u] flag two code units match
    when their canonical forms (upper case of a single code unit, never
    from outside ASCII into ASCII) are equal; against an ASCII pattern a
    code unit outside ASCII never matches, so its canonical form is taken
    to be itself. *)
Definition canonicalize (c : unit16) : unit16 :=
  if isLowerAscii c then (c - 32)%N else c.

Definition wordAt (o : option unit16) : bool :=
  match o with
  | Some c => isWordChar c
  | None => false
  end.

(** [\b] between the code unit before and the code unit after a position
    ([None] at either end of the string). *)
Definition boundary (before after : option unit16) : bool :=
  xorb (wordAt before) (wordAt after).

(** The literal [pat] matched at the head of [s], ignoring case; returns
    the last code unit consumed (or [prev]) and what is left of [s]. *)
Fixpoint matchLiteral (pat s : jsstring) (prev : option unit16)
  : option (option unit16 * jsstring) :=
  match pat with
  | [] => Some (prev, s)
  | p :: pat' =>
      match s with
      | [] => None
      | c :: s' =>
          if (canonicalize p =? canonicalize c)%N
          then matchLiteral pat' s' (Some c)
          else None
      end
  end.

(** [\bkw\b] matched at the head of [s], [prev] being the code unit just
    before. *)
Definition matchBoundedAt (kw : jsstring) (prev : option unit16) (s : jsstring) : bool :=
  boundary prev (hd_error s)
  && match matchLiteral kw s prev with
     | Some (last, rest) => boundary last (hd_error rest)
     | None => false
     end.

Fixpoint searchBounded (kw : jsstring) (prev : option unit16) (s : jsstring) : bool :=
  matchBoundedAt kw prev s
  || match s with
     | [] => false
     | c :: s' => searchBounded kw (Some c) s'
     end.

(** [new RegExp('\\b' + kw + '\\b', 'i').test(s)] *)
Definition regexTestBounded (kw s : jsstring) : bool := searchBounded kw None s.

End JS.

Import JS.

(** ** types.ts *)

Record KnowledgeEntry := {
  id : option jsstring;
  keywords : list jsstring;
  response : jsstring;
  topic : jsstring;
  matchCount : option N
}.

(** ** services/botBrain.ts *)

Module BotBrain.

Definition normalize (text : jsstring) : jsstring :=
  trim (collapseSpaces (replacePunct (toLowerCase text))).

(** The [every] over the keyword tokens against the set of input tokens. *)
Definition allFound (keywordTokens inputTokens : list jsstring) : bool :=
  forallb (fun token => existsb (streq token) inputTokens) keywordTokens.

(** The body of the [for] loop of [calculateScore], from a current
    [maxScore] on; [return 100] leaves the loop at once. *)
Fixpoint calculateScoreFrom (maxScore : nat) (normalizedInput : jsstring)
    (entryKeywords : list jsstring) : nat :=
  match entryKeywords with
  | [] => maxScore
  | keyword :: rest =>
      let normKeyword := normalize keyword in
      if negb (truthy normKeyword) then
        calculateScoreFrom maxScore normalizedInput rest
      else if streq normalizedInput normKeyword then 100
      else if regexTestBounded normKeyword normalizedInput then
        let score := 20 + List.length normKeyword in
        calculateScoreFrom (if maxScore <? score then score else maxScore)
          normalizedInput rest
      else if includes normalizedInput normKeyword then
        let score := 10 + List.length normKeyword in
        calculateScoreFrom (if maxScore <? score then score else maxScore)
          normalizedInput rest
      else
        let keywordTokens := split SP normKeyword in
        if 1 <? List.length keywordTokens then
          let inputTokens := split SP normalizedInput in
          if allFound keywordTokens inputTokens then
            let score := 5 + List.length normKeyword in
            calculateScoreFrom (if maxScore <? score then score else maxScore)
              normalizedInput rest
          else calculateScoreFrom maxScore normalizedInput rest
        else calculateScoreFrom maxScore normalizedInput rest
  end.

Definition calculateScore (normalizedInput : jsstring)
    (entryKeywords : list jsstring) : nat :=
  calculateScoreFrom 0 normalizedInput entryKeywords.

(** The [for] loop of [findBestResponse] over the entries, carrying
    [bestScore] and [bestResponse] ([None] is [null]). *)
Fixpoint scanEntries (normalizedInput : jsstring) (bestScore : nat)
    (bestResponse : option jsstring) (knowledgeBase : list KnowledgeEntry)
  : nat * option jsstring :=
  match knowledgeBase with
  | [] => (bestScore, bestResponse)
  | entry :: rest =>
      let score := calculateScore normalizedInput (keywords entry) in
      if bestScore <? score
      then scanEntries normalizedInput score (Some (response entry)) rest
      else scanEntries normalizedInput bestScore bestResponse rest
  end.

Definition findBestResponse (userInput : jsstring)
    (knowledgeBase : list KnowledgeEntry) : option jsstring :=
  let normalizedInput := normalize userInput in
  if negb (truthy normalizedInput) then None
  else
    let '(bestScore, bestResponse) := scanEntries normalizedInput 0 None knowledgeBase in
    if 0 <? bestScore then bestResponse else None.

Definition DEFAULT_RESPONSES : list jsstring :=
  [ lit "I'm not sure I understand. Can you teach me about that in the Training tab?";
    lit "That's outside my current knowledge. Try adding it to my database!";
    lit "I don't have a record for that yet. Please rephrase or update my training.";
    lit "My database doesn't contain a match for that query." ].

(** [DEFAULT_RESPONSES[Math.floor(Math.random() * DEFAULT_RESPONSES.length)]]
    for the value [random] that [Math.random()] returned.  A double in
    [0, 1) is a rational and its product by 4 is exact, so [Q] carries the
    computation as it is; an index outside the array gives [undefined]. *)
Definition getRandomDefaultResponse (random : Q) : option jsstring :=
  let i := Qfloor (random * inject_Z (Z.of_nat (List.length DEFAULT_RESPONSES)))%Q in
  if (i <? 0)%Z then None else nth_error DEFAULT_RESPONSES (Z.to_nat i).

End BotBrain.

Import BotBrain.

(** ** services/gemini.ts *)

(** How an awaited call settles. *)
Inductive Settled :=
| Resolved (value : jsstring)
| Rejected.

Module Gemini.

(** The client object; all that is used of it is that there is one. *)
Record GoogleGenAI := { apiKey : jsstring }.

(** What [ai.models.generateContent] does for a request: it answers, with
    or without a [text], or it throws. *)
Inductive GenerateResult :=
| Answer (text : option jsstring)
| Throws.

(** The surroundings of the module: the two environment variables
    [getEnvKey] reads ([None] when the variable or its holder is missing),
    whether the constructor of the client throws, and the service, as a
    function of the prompt placed in the fixed persona template. *)
Record Env := {
  VITE_API_KEY : option jsstring;
  API_KEY : option jsstring;
  constructorThrows : bool;
  generateContent : GoogleGenAI -> jsstring -> GenerateResult
}.

Definition definedTruthy (v : option jsstring) : bool :=
  match v with
  | Some k => truthy k
  | None => false
  end.

Definition getEnvKey (e : Env) : option jsstring :=
  if definedTruthy (VITE_API_KEY e) then VITE_API_KEY e
  else if definedTruthy (API_KEY e) then API_KEY e
  else None.

(** [initializeGeminiClient], as the new value of the module variable [ai]. *)
Definition initializeGeminiClient (e : Env) (key : jsstring)
    (ai : option GoogleGenAI) : option GoogleGenAI :=
  if negb (truthy key) then ai
  else if constructorThrows e then None
  else Some {| apiKey := key |}.

Definition NOT_CONFIGURED : jsstring :=
  lit "[SAD] I couldn't find a local answer, and my connection to Gemini is not configured. Please click the Settings icon (gear) and add your Gemini API Key in the 'Connections' tab.".

Definition NO_TEXT : jsstring :=
  lit "[NEUTRAL] I'm having trouble thinking of a response right now.".

Definition API_ERROR : jsstring :=
  lit "[SAD] I'm having trouble connecting to my cloud brain right now. Please check your internet connection or API Key.".

(** [getGeminiResponse(prompt)] from a value of [ai]: how the promise
    settles, and the value of [ai] afterwards. *)
Definition getGeminiResponse (e : Env) (prompt : jsstring)
    (ai : option GoogleGenAI) : Settled * option GoogleGenAI :=
  let ai :=
    match ai with
    | Some _ => ai
    | None =>
        match getEnvKey e with
        | Some lateKey => initializeGeminiClient e lateKey ai
        | None => ai
        end
    end in
  match ai with
  | None => (Resolved NOT_CONFIGURED, ai)
  | Some client =>
      match generateContent e client prompt with
      | Answer (Some text) =>
          (Resolved (if truthy text then text else NO_TEXT), ai)
      | Answer None => (Resolved NO_TEXT, ai)
      | Throws => (Resolved API_ERROR, ai)
      end
  end.

End Gemini.

(** ** services/gemini.ts: where getGeminiResponse waits

    The body of an [async] function runs in the turn of its caller up to
    its first [await].  When it gets to a [return] before any [await], the
    promise the call hands back is fulfilled already; otherwise the promise
    is pending and the rest of the body runs once the awaited request has
    ended.  [Gemini.getGeminiResponse] tells how the promise settles in the
    end; here the same body is written with its one [await] in sight. *)

Module Async.

(** The promise of the call at the moment the call returns: fulfilled,
    rejected, or pending on a request to the service made with a client,
    with the rest of the body as a function of how that request ends. *)
Inductive Promise :=
| Fulfilled (value : jsstring)
| Failed
| Pending (client : Gemini.GoogleGenAI) (request : jsstring)
          (resume : Gemini.GenerateResult -> Promise).

(** [getGeminiResponse(prompt)] from a value of [ai]: the promise handed
    back, and the value of [ai] afterwards. *)
Definition getGeminiResponse (e : Gemini.Env) (prompt : jsstring)
    (ai : option Gemini.GoogleGenAI) : Promise * option Gemini.GoogleGenAI :=
  let ai :=
    match ai with
    | Some _ => ai
    | None =>
        match Gemini.getEnvKey e with
        | Some lateKey => Gemini.initializeGeminiClient e lateKey ai
        | None => ai
        end
    end in
  match ai with
  | None => (Fulfilled Gemini.NOT_CONFIGURED, ai)
  | Some client =>
      (Pending client prompt
         (fun response =>
            match response with
            | Gemini.Answer (Some text) =>
                Fulfilled (if truthy text then text else Gemini.NO_TEXT)
            | Gemini.Answer None => Fulfilled Gemini.NO_TEXT
            | Gemini.Throws => Fulfilled Gemini.API_ERROR
            end),
       ai)
  end.

(** The requests a promise waits for before it settles, the service
    answering as in [e]. *)
Fixpoint awaited (e : Gemini.Env) (p : Promise)
    : list (Gemini.GoogleGenAI * jsstring) :=
  match p with
  | Fulfilled _ => []
  | Failed => []
  | Pending client request resume =>
      (client, request) :: awaited e (resume (Gemini.generateContent e client request))
  end.

(** How a promise settles in the end, the service answering as in [e]. *)
Fixpoint settle (e : Gemini.Env) (p : Promise) : Settled :=
  match p with
  | Fulfilled value => Resolved value
  | Failed => Rejected
  | Pending client request resume =>
      settle e (resume (Gemini.generateContent e client request))
  end.

End Async.

(** ** App.tsx *)

Module App.

(** A value held by a property of a message. *)
Inductive jsval :=
| Undefined
| Str (s : jsstring)
| Num (n : Z).

(** A message is the object literal the handler builds: its properties in
    the order written.  Reading a property the object does not have gives
    [undefined]. *)
Definition object := list (string * jsval).

Fixpoint getProp (o : object) (key : string) : jsval :=
  match o with
  | [] => Undefined
  | (k, v) :: o' => if String.eqb key k then v else getProp o' key
  end.

(** [n.toString()] for an integer. *)
Definition toString (n : Z) : jsstring :=
  lit (NilZero.string_of_int (Z.to_int n)).

Definition Message (id : jsstring) (text : jsval) (sender : string) (timestamp : Z) : object :=
  [ ("id"%string, Str id); ("text"%string, text);
    ("sender"%string, Str (lit sender)); ("timestamp"%string, Num timestamp) ].

Definition processEmotionAndText (fullText : jsstring) : jsstring :=
  let cleanText := fullText in
  let cleanText :=
    if includes fullText (lit "[HAPPY]") then replace cleanText (lit "[HAPPY]") []
    else if includes fullText (lit "[SAD]") then replace cleanText (lit "[SAD]") []
    else if includes fullText (lit "[ANGRY]") then replace cleanText (lit "[ANGRY]") []
    else if includes fullText (lit "[SURPRISED]") then replace cleanText (lit "[SURPRISED]") []
    else if includes fullText (lit "[THINKING]") then replace cleanText (lit "[THINKING]") []
    else if includes fullText (lit "[NEUTRAL]") then replace cleanText (lit "[NEUTRAL]") []
    else cleanText in
  trim cleanText.

(** The state of the component that a resolution touches, with a log of
    the prompts handed to [getGeminiResponse] (the log is not in the
    source; it is there to count the calls). *)
Record State := {
  messages : list object;
  isTyping : bool;
  knowledgeBase : list KnowledgeEntry;
  geminiCalls : list jsstring
}.

(** What one run of the handler meets outside: the successive readings of
    [Date.now()], how the awaited [getGeminiResponse] settles for a prompt,
    and the value [Math.random()] returns. *)
Record Run := {
  now : nat -> Z;
  gemini : jsstring -> Settled;
  random : Q
}.

Definition pushMessage (m : object) (st : State) : State :=
  {| messages := messages st ++ [m];
     isTyping := isTyping st;
     knowledgeBase := knowledgeBase st;
     geminiCalls := geminiCalls st |}.

Definition setIsTyping (b : bool) (st : State) : State :=
  {| messages := messages st;
     isTyping := b;
     knowledgeBase := knowledgeBase st;
     geminiCalls := geminiCalls st |}.

Definition logCall (prompt : jsstring) (st : State) : State :=
  {| messages := messages st;
     isTyping := isTyping st;
     knowledgeBase := knowledgeBase st;
     geminiCalls := geminiCalls st ++ [prompt] |}.

Definition optionToVal (o : option jsstring) : jsval :=
  match o with
  | Some s => Str s
  | None => Undefined
  end.

(** Truthiness of a [string | null]. *)
Definition truthyOrNull (o : option jsstring) : bool :=
  match o with
  | Some s => truthy s
  | None => false
  end.

(** [handleUserMessage(text)], run to its end: in the branch of a local
    match the state is the one after the 600 ms timer has fired. *)
Definition handleUserMessage (r : Run) (text : jsstring) (st : State) : State :=
  let userMsg := Message (toString (now r 0)) (Str text) "user" (now r 1) in
  let st := pushMessage userMsg st in
  let st := setIsTyping true st in
  let localMatch := findBestResponse text (knowledgeBase st) in
  if truthyOrNull localMatch then
    let botMsg := Message (toString (now r 2 + 1)) (optionToVal localMatch) "bot" (now r 3) in
    let st := pushMessage botMsg st in
    setIsTyping false st
  else
    let st := logCall text st in
    let st :=
      match gemini r text with
      | Resolved rawResponse =>
          let cleanText := processEmotionAndText rawResponse in
          let botMsg := Message (toString (now r 2 + 1)) (Str cleanText) "bot" (now r 3) in
          pushMessage botMsg st
      | Rejected =>
          let botMsg :=
            Message (toString (now r 2 + 1))
                    (optionToVal (getRandomDefaultResponse (random r))) "bot" (now r 3) in
          pushMessage botMsg st
      end in
    setIsTyping false st.

End App.

Import App.

(** ** services/gemini.ts: detectEmotion *)

Module Vision.

Definition NEED_KEY : jsstring :=
  lit "[SAD] I need a Gemini API Key to see your emotion. Please configure it in Settings.".

Definition NO_TEXT : jsstring :=
  lit "[NEUTRAL] I couldn't quite read your expression.".

Definition VISION_ERROR : jsstring :=
  lit "[SAD] I had trouble processing the image. Please try again.".

(** [detectEmotion(base64Image)] from a value of [ai]; [generateFromImage]
    is what [ai.models.generateContent] does for the request that carries
    the image and the fixed instruction. *)
Definition detectEmotion (e : Gemini.Env)
    (generateFromImage : Gemini.GoogleGenAI -> jsstring -> Gemini.GenerateResult)
    (base64Image : jsstring) (ai : option Gemini.GoogleGenAI)
  : Settled * option Gemini.GoogleGenAI :=
  let ai :=
    match ai with
    | Some _ => ai
    | None =>
        match Gemini.getEnvKey e with
        | Some lateKey => Gemini.initializeGeminiClient e lateKey ai
        | None => ai
        end
    end in
  match ai with
  | None => (Resolved NEED_KEY, ai)
  | Some client =>
      match generateFromImage client base64Image with
      | Gemini.Answer (Some text) =>
          (Resolved (if truthy text then text else NO_TEXT), ai)
      | Gemini.Answer None => (Resolved NO_TEXT, ai)
      | Gemini.Throws => (Resolved VISION_ERROR, ai)
      end
  end.

End Vision.

(** ** App.tsx: handleEmotionAnalysis *)

Module Emotion.

(** The text of the user message: the camera sign U+1F4F7, as its two
    surrogates, and the caption. *)
Definition SCANNING : jsstring :=
  [55357%N; 56567%N] ++ lit " [Scanning my facial expression...]".

Definition IMAGE_APOLOGY : jsstring :=
  lit "I'm sorry, I couldn't process the image correctly.".

(** What one run of the handler meets outside: the readings of
    [Date.now()] and how the awaited [detectEmotion] settles. *)
Record Run := {
  now : nat -> Z;
  detect : jsstring -> Settled
}.

Definition handleEmotionAnalysis (r : Run) (imageBase64 : jsstring) (st : State) : State :=
  let userMsg := Message (toString (now r 0)) (Str SCANNING) "user" (now r 1) in
  let st := pushMessage userMsg st in
  let st := setIsTyping true st in
  let st :=
    match detect r imageBase64 with
    | Resolved rawResponse =>
        let cleanText := processEmotionAndText rawResponse in
        let botMsg := Message (toString (now r 2 + 1)) (Str cleanText) "bot" (now r 3) in
        pushMessage botMsg st
    | Rejected =>
        let botMsg := Message (toString (now r 2 + 1)) (Str IMAGE_APOLOGY) "bot" (now r 3) in
        pushMessage botMsg st
    end in
  setIsTyping false st.

End Emotion.

(** ** components/ChatInterface.tsx *)

Module Chat.

(** [handleSubmit] of the chat form, [onSendMessage] being
    [handleUserMessage]: the new value of the input box and the state of
    the application. *)
Definition handleSubmit (r : App.Run) (inputValue : jsstring) (st : State)
  : jsstring * State :=
  if negb (truthy (trim inputValue)) then (inputValue, st)
  else ([], handleUserMessage r inputValue st).

End Chat.

(** ** components/TrainingPanel.tsx *)

Module Training.

Definition COMMA : unit16 := 44%N.

(** [newKeywords.split(',').map(k => k.trim()).filter(k => k.length > 0)] *)
Definition keywordsArray (newKeywords : jsstring) : list jsstring :=
  filter (fun k => 0 <? List.length k) (List.map trim (split COMMA newKeywords)).

(** [handleAdd]: the entry handed to [addKnowledgeEntry], or [None] when
    the guard returns before anything is done. *)
Definition handleAdd (newTopic newKeywords newResponse : jsstring)
  : option KnowledgeEntry :=
  if negb (truthy newTopic) || negb (truthy newKeywords) || negb (truthy newResponse)
  then None
  else Some {| id := None;
               keywords := keywordsArray newKeywords;
               response := newResponse;
               topic := newTopic;
               matchCount := None |}.

End Training.

(** ** services/firebase.ts, mock mode *)

Module Firebase.

Record User := {
  uid : jsstring;
  email : option jsstring;
  displayName : option jsstring
}.

(** What makes a promise of the module reject: an [Error] the module
    throws itself, with its message, or an exception of the platform
    ([localStorage.setItem] over quota, the Firebase SDK). *)
Inductive Failure :=
| Thrown (message : jsstring)
| Platform.

Inductive Result (A : Type) : Type :=
| Ok (value : A)
| Err (failure : Failure).

Arguments Ok {A} value.
Arguments Err {A} failure.

(** What [localStorage] holds under a key, as [JSON.parse] sees it: no
    item (or the empty string, which [!str] takes for none), the JSON
    text of a value, or a text that does not parse.  [JSON.parse] of
    [JSON.stringify] gives back an equal value for entries and users,
    whose fields are strings, [null] or absent. *)
Inductive Item (A : Type) : Type :=
| NoItem
| Json (value : A)
| Garbage.

Arguments NoItem {A}.
Arguments Json {A} value.
Arguments Garbage {A}.

(** The variables of the module ([db] and [auth] tell whether the
    variable of that name holds an object rather than [null]; a listener
    field tells whether a callback is registered), whether
    [localStorage.setItem] throws, the two items of [localStorage] the
    module uses, and what the callbacks it was given have been called with
    (oldest first).  [DEFAULT_KNOWLEDGE] is the array object of that name:
    [getMockDB] can return it, and whoever then pushes to it or sorts it
    changes it. *)
Record Store := {
  useMock : bool;
  db : bool;
  auth : bool;
  quotaExceeded : bool;
  dbItem : Item (list KnowledgeEntry);
  userItem : Item User;
  DEFAULT_KNOWLEDGE : list KnowledgeEntry;
  mockDbListener : bool;
  dbData : list (list KnowledgeEntry);
  dbErrors : list jsstring;
  mockAuthListener : bool;
  authData : list (option User)
}.

Definition setDbItem (v : Item (list KnowledgeEntry)) (s : Store) : Store :=
  {| useMock := useMock s; db := db s; auth := auth s; quotaExceeded := quotaExceeded s;
     dbItem := v; userItem := userItem s; DEFAULT_KNOWLEDGE := DEFAULT_KNOWLEDGE s;
     mockDbListener := mockDbListener s; dbData := dbData s; dbErrors := dbErrors s;
     mockAuthListener := mockAuthListener s; authData := authData s |}.

Definition setUserItem (v : Item User) (s : Store) : Store :=
  {| useMock := useMock s; db := db s; auth := auth s; quotaExceeded := quotaExceeded s;
     dbItem := dbItem s; userItem := v; DEFAULT_KNOWLEDGE := DEFAULT_KNOWLEDGE s;
     mockDbListener := mockDbListener s; dbData := dbData s; dbErrors := dbErrors s;
     mockAuthListener := mockAuthListener s; authData := authData s |}.

Definition setDefaults (v : list KnowledgeEntry) (s : Store) : Store :=
  {| useMock := useMock s; db := db s; auth := auth s; quotaExceeded := quotaExceeded s;
     dbItem := dbItem s; userItem := userItem s; DEFAULT_KNOWLEDGE := v;
     mockDbListener := mockDbListener s; dbData := dbData s; dbErrors := dbErrors s;
     mockAuthListener := mockAuthListener s; authData := authData s |}.

Definition setDbListener (v : bool) (s : Store) : Store :=
  {| useMock := useMock s; db := db s; auth := auth s; quotaExceeded := quotaExceeded s;
     dbItem := dbItem s; userItem := userItem s; DEFAULT_KNOWLEDGE := DEFAULT_KNOWLEDGE s;
     mockDbListener := v; dbData := dbData s; dbErrors := dbErrors s;
     mockAuthListener := mockAuthListener s; authData := authData s |}.

Definition setAuthListener (v : bool) (s : Store) : Store :=
  {| useMock := useMock s; db := db s; auth := auth s; quotaExceeded := quotaExceeded s;
     dbItem := dbItem s; userItem := userItem s; DEFAULT_KNOWLEDGE := DEFAULT_KNOWLEDGE s;
     mockDbListener := mockDbListener s; dbData := dbData s; dbErrors := dbErrors s;
     mockAuthListener := v; authData := authData s |}.

(** [onData(data)] / [mockDbListener(data)] *)
Definition onData (data : list KnowledgeEntry) (s : Store) : Store :=
  {| useMock := useMock s; db := db s; auth := auth s; quotaExceeded := quotaExceeded s;
     dbItem := dbItem s; userItem := userItem s; DEFAULT_KNOWLEDGE := DEFAULT_KNOWLEDGE s;
     mockDbListener := mockDbListener s; dbData := dbData s ++ [data]; dbErrors := dbErrors s;
     mockAuthListener := mockAuthListener s; authData := authData s |}.

(** [onError(new Error(message))] *)
Definition onError (message : jsstring) (s : Store) : Store :=
  {| useMock := useMock s; db := db s; auth := auth s; quotaExceeded := quotaExceeded s;
     dbItem := dbItem s; userItem := userItem s; DEFAULT_KNOWLEDGE := DEFAULT_KNOWLEDGE s;
     mockDbListener := mockDbListener s; dbData := dbData s; dbErrors := dbErrors s ++ [message];
     mockAuthListener := mockAuthListener s; authData := authData s |}.

(** [callback(user)] / [mockAuthListener(user)] *)
Definition onAuth (user : option User) (s : Store) : Store :=
  {| useMock := useMock s; db := db s; auth := auth s; quotaExceeded := quotaExceeded s;
     dbItem := dbItem s; userItem := userItem s; DEFAULT_KNOWLEDGE := DEFAULT_KNOWLEDGE s;
     mockDbListener := mockDbListener s; dbData := dbData s; dbErrors := dbErrors s;
     mockAuthListener := mockAuthListener s; authData := authData s ++ [user] |}.

(** The array returned, whether it is the [DEFAULT_KNOWLEDGE] array
    itself, and the store afterwards.  Anything thrown inside the [try]
    (the write of the defaults over quota, a text that does not parse)
    gives the empty array. *)
Definition getMockDB (s : Store) : list KnowledgeEntry * bool * Store :=
  match dbItem s with
  | NoItem =>
      if quotaExceeded s then ([], false, s)
      else (DEFAULT_KNOWLEDGE s, true, setDbItem (Json (DEFAULT_KNOWLEDGE s)) s)
  | Json entries => (entries, false, s)
  | Garbage => ([], false, s)
  end.

(** [saveMockDB(data)]; [None] when the write throws. *)
Definition saveMockDB (data : list KnowledgeEntry) (s : Store) : option Store :=
  if quotaExceeded s then None
  else
    let s := setDbItem (Json data) s in
    Some (if mockDbListener s then onData data s else s).

(** [e.id !== id] fails *)
Definition hasId (target : jsstring) (e : KnowledgeEntry) : bool :=
  match id e with
  | Some i => streq i target
  | None => false
  end.

Definition NOT_INITIALIZED : jsstring := lit "Database not initialized".

Definition AT_SIGN : unit16 := 64%N.

Section Collation.

(** [a.localeCompare(b)], which depends on the locale of the host. *)
Variable localeCompare : jsstring -> jsstring -> Z.

(** [entries.sort((a, b) => a.topic.localeCompare(b.topic))].  The sort
    of the language is stable, and with a consistent comparison function,
    which [localeCompare] is, its result is the one a stable insertion
    gives: each element goes in front of the first one that has to come
    after it. *)
Fixpoint insertByTopic (x : KnowledgeEntry) (l : list KnowledgeEntry)
  : list KnowledgeEntry :=
  match l with
  | [] => [x]
  | y :: l' =>
      if (0 <? localeCompare (topic y) (topic x))%Z then x :: l
      else y :: insertByTopic x l'
  end.

Definition sortByTopic (l : list KnowledgeEntry) : list KnowledgeEntry :=
  fold_left (fun sorted x => insertByTopic x sorted) l [].

(** [subscribeToKnowledgeBase(onData, onError)]; in real mode with a
    database the snapshots come later from Firestore and are not part of
    this model. *)
Definition subscribeToKnowledgeBase (s : Store) : Store :=
  if useMock s then
    let s := setDbListener true s in
    let '(entries, aliased, s) := getMockDB s in
    let data := sortByTopic entries in
    let s := if aliased then setDefaults data s else s in
    onData data s
  else if negb (db s) then onError NOT_INITIALIZED s
  else s.

(** The function [subscribeToKnowledgeBase] returns in mock mode. *)
Definition unsubscribeKnowledgeBase (s : Store) : Store := setDbListener false s.

(** [{ ...entry, id: 'mock_' + Date.now() }] *)
Definition withMockId (entry : KnowledgeEntry) (now : Z) : KnowledgeEntry :=
  {| id := Some (lit "mock_" ++ toString now);
     keywords := keywords entry;
     response := response entry;
     topic := topic entry;
     matchCount := matchCount entry |}.

(** [addKnowledgeEntry(entry)] at the clock reading [now]; [remote] is
    how the awaited [addDoc] ends in real mode. *)
Definition addKnowledgeEntry (entry : KnowledgeEntry) (now : Z) (remote : Result unit)
    (s : Store) : Result unit * Store :=
  if useMock s then
    let '(entries, aliased, s) := getMockDB s in
    let newEntry := withMockId entry now in
    let entries := sortByTopic (entries ++ [newEntry]) in
    let s := if aliased then setDefaults entries s else s in
    match saveMockDB entries s with
    | Some s' => (Ok tt, s')
    | None => (Err Platform, s)
    end
  else if negb (db s) then (Err (Thrown NOT_INITIALIZED), s)
  else (remote, s).

End Collation.

(** [deleteKnowledgeEntry(id)]; [remote] is how the awaited [deleteDoc]
    ends in real mode. *)
Definition deleteKnowledgeEntry (target : jsstring) (remote : Result unit) (s : Store)
  : Result unit * Store :=
  if useMock s then
    let '(entries, _, s) := getMockDB s in
    let entries := filter (fun e => negb (hasId target e)) entries in
    match saveMockDB entries s with
    | Some s' => (Ok tt, s')
    | None => (Err Platform, s)
    end
  else if negb (db s) then (Err (Thrown NOT_INITIALIZED), s)
  else (remote, s).

(** [subscribeToAuth(callback)]; in real mode with [auth] the changes
    come later from the SDK. *)
Definition subscribeToAuth (s : Store) : Store :=
  if useMock s then
    let s := setAuthListener true s in
    match userItem s with
    | Json user => onAuth (Some user) s
    | Garbage => onAuth None s
    | NoItem => onAuth None s
    end
  else if negb (auth s) then onAuth None s
  else s.

(** [loginUser(email, pass)] once its promise has settled; [remote] is how
    the awaited [signInWithEmailAndPassword] ends in real mode. *)
Definition loginUser (email pass : jsstring) (now : Z) (remote : Result User) (s : Store)
  : Result User * Store :=
  if useMock s then
    if negb (includes email [AT_SIGN]) then (Err (Thrown (lit "Invalid email")), s)
    else
      let user := {| uid := lit "mock_" ++ toString now;
                     email := Some email;
                     displayName := Some (hd [] (split AT_SIGN email)) |} in
      if quotaExceeded s then (Err Platform, s)
      else
        let s := setUserItem (Json user) s in
        let s := if mockAuthListener s then onAuth (Some user) s else s in
        (Ok user, s)
  else if negb (auth s) then (Err (Thrown (lit "Auth not initialized")), s)
  else (remote, s).

(** [registerUser(email, pass, name)] once its promise has settled;
    [remote] is how the three awaited calls of real mode end together. *)
Definition registerUser (email pass name : jsstring) (now : Z) (remote : Result User)
    (s : Store) : Result User * Store :=
  if useMock s then
    let user := {| uid := lit "mock_" ++ toString now;
                   email := Some email;
                   displayName := Some name |} in
    if quotaExceeded s then (Err Platform, s)
    else
      let s := setUserItem (Json user) s in
      let s := if mockAuthListener s then onAuth (Some user) s else s in
      (Ok user, s)
  else if negb (auth s) || negb (db s) then (Err (Thrown (lit "Auth/DB not initialized")), s)
  else (remote, s).

(** [logoutAdmin()]; [remote] is how the awaited [signOut] ends. *)
Definition logoutAdmin (remote : Result unit) (s : Store) : Result unit * Store :=
  if useMock s then
    let s := setUserItem NoItem s in
    (Ok tt, if mockAuthListener s then onAuth None s else s)
  else if negb (auth s) then (Ok tt, s)
  else (remote, s).

End Firebase.

(** * Vocabulary of the properties *)

(** The alphabet of a normalized text: [[a-z0-9_ ]]. *)
Definition isNormChar (c : unit16) : bool :=
  isLowerAscii c || isDigit c || (c =? 95)%N || (c =? 32)%N.

(** [tidy afterSpace s]: the only white space in [s] is the space
    character, and no space follows another ([afterSpace] tells that a
    space comes just before [s]). *)
Fixpoint tidy (afterSpace : bool) (s : jsstring) : bool :=
  match s with
  | [] => true
  | c :: s' =>
      if isSpace c then (c =? SP)%N && negb afterSpace && tidy true s'
      else tidy false s'
  end.

(** The score of an entry against a normalized input [n]. *)
Definition keywordScore (n : jsstring) (e : KnowledgeEntry) : nat :=
  calculateScore n (keywords e).

(** The score of an entry for a user input, as [findBestResponse]
    computes it. *)
Definition entryScore (q : jsstring) (e : KnowledgeEntry) : nat :=
  keywordScore (normalize q) e.

(** The entry at index [i] of [K] has a positive score for [q], no entry
    of [K] scores higher, and every entry before it scores lower. *)
Definition firstBest (q : jsstring) (K : list KnowledgeEntry) (i : nat)
    (e : KnowledgeEntry) : Prop :=
  nth_error K i = Some e
  /\ 0 < entryScore q e
  /\ (forall e', In e' K -> entryScore q e' <= entryScore q e)
  /\ (forall j e', j < i -> nth_error K j = Some e' -> entryScore q e' < entryScore q e).

(** An entry as the training panel stores it. *)
Definition mkEntry (t : string) (kws : list string) (resp : string) : KnowledgeEntry :=
  {| id := None; keywords := List.map lit kws; response := lit resp;
     topic := lit t; matchCount := None |}.

(** The knowledge base of the scenarios of the specification. *)
Definition welcomeKB : list KnowledgeEntry :=
  [ mkEntry "Welcome" ["hello"; "hi"]%string "Hello! I am Aarya AI." ].

(** Two entries that both match the input [hi] exactly. *)
Definition tieKB : list KnowledgeEntry :=
  [ mkEntry "Welcome" ["hello"; "hi"]%string "Hello! I am Aarya AI.";
    mkEntry "Greeting" ["hi"]%string "Hi again." ].

(** The tags [processEmotionAndText] looks for, in the order it tests
    them. *)
Definition TAGS : list jsstring :=
  List.map lit ["[HAPPY]"; "[SAD]"; "[ANGRY]"; "[SURPRISED]"; "[THINKING]"; "[NEUTRAL]"]%string.

(** The seventh tag the prompt of [getGeminiResponse] asks the service
    for. *)
Definition CONCERNED : jsstring := lit "[CONCERNED]".

(** A component state holding a knowledge base and nothing else yet. *)
Definition freshState (K : list KnowledgeEntry) : State :=
  {| messages := []; isTyping := false; knowledgeBase := K; geminiCalls := [] |}.

(** The message a resolution ends with. *)
Definition lastMessage (st : State) : object := last (messages st) [].

(** A run in which the awaited call is rejected. *)
Definition rejectingRun : Run :=
  {| now := fun _ => 1700000000000%Z; gemini := fun _ => Rejected; random := 0%Q |}.

(** A run whose awaited call is [getGeminiResponse] itself, starting
    without a client, in the surroundings [e]. *)
Definition geminiRun (e : Gemini.Env) (clock : nat -> Z) (rnd : Q) : Run :=
  {| now := clock;
     gemini := fun prompt => fst (Gemini.getGeminiResponse e prompt None);
     random := rnd |}.

(** Surroundings without any credential. *)
Definition noCredential : Gemini.Env :=
  {| Gemini.VITE_API_KEY := None; Gemini.API_KEY := None;
     Gemini.constructorThrows := false;
     Gemini.generateContent := fun _ _ => Gemini.Throws |}.


(** Surroundings with a key, in which every request to the service fails
    (the network is down). *)
Definition networkDown : Gemini.Env :=
  {| Gemini.VITE_API_KEY := Some (lit "AIza-test-key"); Gemini.API_KEY := None;
     Gemini.constructorThrows := false;
     Gemini.generateContent := fun _ _ => Gemini.Throws |}.



(** No code unit of [s] is U+0130 or U+212A, the two code units outside
    ASCII whose lower case has an ASCII letter. *)
Definition noAsciiLowering (s : jsstring) : bool :=
  forallb (fun c => negb (c =? 304)%N && negb (c =? 8490)%N) s.

(** An entry about hiking, with a keyword that ends in [k]. *)
Definition hikeKB : list KnowledgeEntry :=
  [ mkEntry "Hiking" ["hik"]%string "Hik is Dutch for hiccup." ].

(** An entry whose response is the empty string. *)
Definition silentKB : list KnowledgeEntry := [ mkEntry "Mute" ["hi"]%string "" ].

(** The Kelvin sign, U+212A, and an entry about it. *)
Definition kelvin : jsstring := [8490%N].
Definition kelvinKB : list KnowledgeEntry :=
  [ mkEntry "Units" ["k"]%string "The kelvin is the unit of temperature." ].

(** A greeting in Devanagari script (U+0928 U+092E U+0938 U+094D U+0924
    U+0947). *)
Definition namaste : jsstring := [2344%N; 2350%N; 2360%N; 2381%N; 2340%N; 2375%N].

(** No code unit of [s] is an ASCII word character. *)
Definition noWordChar (s : jsstring) : bool :=
  forallb (fun c => negb (isWordChar c)) s.

(** Every code unit of [s] is in the Devanagari block, U+0900 to U+097F. *)
Definition isDevanagari (s : jsstring) : bool := forallb (inRange 2304 2431) s.

(** Two texts with the same code units except that, where one has a
    non-empty run of code units that are not ASCII word characters, the
    other has such a run too. *)
Inductive sameWords : jsstring -> jsstring -> Prop :=
| sameWords_nil : sameWords [] []
| sameWords_unit c a b : sameWords a b -> sameWords (c :: a) (c :: b)
| sameWords_gap u v a b :
    u <> [] -> v <> [] -> noWordChar u = true -> noWordChar v = true ->
    sameWords a b -> sameWords (u ++ a) (v ++ b).

(** A case table that also covers the capital letters of Latin-1,
    U+00C0 to U+00DE without the multiplication sign U+00D7. *)
Definition lowerLatin1 (c : unit16) : jsstring :=
  if inRange 192 222 c && negb (c =? 215)%N then [(c + 32)%N] else lowerUnit c.

(** A keyword is an exact match of the input: the test behind
    [return 100] in [calculateScore]. *)
Definition exactMatch (n keyword : jsstring) : bool :=
  truthy (normalize keyword) && streq n (normalize keyword).

(** What a keyword that is not an exact match adds to the running
    maximum in [calculateScore]: the three tiers below the exact match, in
    the order the code tests them. *)
Definition tierScore (n keyword : jsstring) : nat :=
  let normKeyword := normalize keyword in
  if negb (truthy normKeyword) then 0
  else if regexTestBounded normKeyword n then 20 + List.length normKeyword
  else if includes n normKeyword then 10 + List.length normKeyword
  else if (1 <? List.length (split SP normKeyword))
          && allFound (split SP normKeyword) (split SP n)
       then 5 + List.length normKeyword
  else 0.

(** ASCII capitals for ASCII small letters, every other code unit as it
    is. *)
Definition upperAscii (s : jsstring) : jsstring :=
  List.map (fun c => if isLowerAscii c then (c - 32)%N else c) s.

(** The last code unit of [a], or [prev] when [a] is empty. *)
Definition lastOr (prev : option unit16) (a : jsstring) : option unit16 :=
  fold_left (fun _ c => Some c) a prev.

(** Two texts differ at a position they both have. *)
Fixpoint mismatch (p t : jsstring) : bool :=
  match p, t with
  | x :: p', y :: t' => negb (x =? y)%N || mismatch p' t'
  | _, _ => false
  end.

(** The opening bracket of a tag. *)
Definition LBRACKET : unit16 := 91%N.

(** A run of the photo handler whose awaited call is [detectEmotion]
    itself, starting without a client. *)
Definition visionRun (e : Gemini.Env)
    (gen : Gemini.GoogleGenAI -> jsstring -> Gemini.GenerateResult)
    (clock : nat -> Z) : Emotion.Run :=
  {| Emotion.now := clock;
     Emotion.detect := fun image => fst (Vision.detectEmotion e gen image None) |}.

(** A comparison function is consistent: the signs of [cmp a b] and
    [cmp b a] are opposite and "not after" is transitive, which makes it
    a total preorder. *)
Definition consistent (cmp : jsstring -> jsstring -> Z) : Prop :=
  (forall a b, (0 < cmp a b)%Z <-> (cmp b a < 0)%Z)
  /\ (forall a b c, (cmp a b <= 0)%Z -> (cmp b c <= 0)%Z -> (cmp a c <= 0)%Z).

(** The topic of [a] does not come after the topic of [b]. *)
Definition topicLe (cmp : jsstring -> jsstring -> Z) (a b : KnowledgeEntry) : Prop :=
  (cmp (topic a) (topic b) <= 0)%Z.

(** A consistent comparison function to run examples with: shorter
    before longer. *)
Definition compareLength (a b : jsstring) : Z :=
  (Z.of_nat (List.length a) - Z.of_nat (List.length b))%Z.

(** The constant [DEFAULT_KNOWLEDGE] as the source writes it. *)
Definition DEFAULT_KNOWLEDGE0 : list KnowledgeEntry :=
  [ {| id := Some (lit "1");
       keywords := List.map lit ["hello"; "hi"; "hey"; "greetings"]%string;
       response := lit "Hello! I am Aarya AI. How can I help you today?";
       topic := lit "Welcome";
       matchCount := None |};
    {| id := Some (lit "2");
       keywords := List.map lit ["help"; "do"; "features"; "what can you do"]%string;
       response := lit "I can answer questions based on my local database. If I don't know the answer, I'll check with Gemini!";
       topic := lit "Capabilities";
       matchCount := None |} ].

(** The module as it is loaded, over an empty [localStorage] that can
    be written. *)
Definition loadedStore : Firebase.Store :=
  {| Firebase.useMock := true; Firebase.db := false; Firebase.auth := false;
     Firebase.quotaExceeded := false;
     Firebase.dbItem := Firebase.NoItem; Firebase.userItem := Firebase.NoItem;
     Firebase.DEFAULT_KNOWLEDGE := DEFAULT_KNOWLEDGE0;
     Firebase.mockDbListener := false; Firebase.dbData := []; Firebase.dbErrors := [];
     Firebase.mockAuthListener := false; Firebase.authData := [] |}.

(** What [getMockDB] would return from a store. *)
Definition currentEntries (s : Firebase.Store) : list KnowledgeEntry :=
  fst (fst (Firebase.getMockDB s)).

(** * Properties *)

(** ** Code-unit classes *)

Ltac unfold_classes :=
  unfold isWordChar, isSpace, isUpperAscii, isLowerAscii, isDigit, inRange, SP in *.

Ltac class_arith :=
  unfold_classes;
  repeat match goal with
         | H : _ && _ = true |- _ => apply andb_true_iff in H; destruct H
         | H : _ || _ = true |- _ => apply orb_true_iff in H; destruct H
         | H : _ || _ = false |- _ => apply orb_false_iff in H; destruct H
         | H : _ && _ = false |- _ => apply andb_false_iff in H; destruct H
         | H : (_ <=? _)%N = true |- _ => apply N.leb_le in H
         | H : (_ <=? _)%N = false |- _ => apply N.leb_gt in H
         | H : (_ =? _)%N = true |- _ => apply N.eqb_eq in H
         | H : (_ =? _)%N = false |- _ => apply N.eqb_neq in H
         end.

Lemma space_not_word c : isSpace c = true -> isWordChar c = false.
Proof.
  intro H. destruct (isWordChar c) eqn:W; [|reflexivity].
  exfalso. class_arith; lia.
Qed.

Lemma SP_isSpace : isSpace SP = true.
Proof. reflexivity. Qed.

Lemma normChar_cases c :
  isNormChar c = true -> (isWordChar c = true /\ isSpace c = false /\ isUpperAscii c = false) \/ c = SP.
Proof.
  unfold isNormChar. intro H.
  destruct (c =? 32)%N eqn:E.
  - right. apply N.eqb_eq in E. exact E.
  - left. rewrite orb_false_r in H.
    assert (W : isWordChar c = true).
    { unfold isWordChar. revert H.
      destruct (isLowerAscii c), (isDigit c), (c =? 95)%N; simpl; auto;
        destruct (isUpperAscii c); auto. }
    split; [exact W|]. split.
    + destruct (isSpace c) eqn:S; [|reflexivity].
      apply space_not_word in S. congruence.
    + destruct (isUpperAscii c) eqn:U; [|reflexivity].
      exfalso. class_arith; lia.
Qed.

(** ** toLowerCase *)

Lemma lowerUnit_no_upper x c : In c (lowerUnit x) -> isUpperAscii c = false.
Proof.
  unfold lowerUnit.
  destruct (isUpperAscii x) eqn:U.
  - intros [<-|[]]. class_arith.
    apply andb_false_iff. right. apply N.leb_gt. lia.
  - destruct (x =? 304)%N; [|destruct (x =? 8490)%N].
    + intros [ <- | [ <- | [] ] ]; reflexivity.
    + intros [<-|[]]; reflexivity.
    + intros [<-|[]]; exact U.
Qed.

Lemma toLowerCase_no_upper s c : In c (toLowerCase s) -> isUpperAscii c = false.
Proof.
  unfold toLowerCase. intro H. apply in_flat_map in H.
  destruct H as (x & _ & H). eapply lowerUnit_no_upper; eauto.
Qed.

Lemma lowerUnit_norm c : isNormChar c = true -> lowerUnit c = [c].
Proof.
  intro H. unfold lowerUnit.
  destruct (normChar_cases _ H) as [(W & _ & U)| -> ]; [|reflexivity].
  rewrite U.
  assert (c <> 304%N /\ c <> 8490%N) as [A B].
  { unfold isWordChar in W. class_arith; lia. }
  apply N.eqb_neq in A, B. rewrite A, B. reflexivity.
Qed.

Lemma toLowerCase_norm s :
  (forall c, In c s -> isNormChar c = true) -> toLowerCase s = s.
Proof.
  unfold toLowerCase. induction s as [|c s IH]; intro H; [reflexivity|].
  simpl. rewrite lowerUnit_norm by (apply H; left; reflexivity).
  simpl. f_equal. apply IH. intros d Hd. apply H. right. exact Hd.
Qed.

(** ** The two regular-expression replacements *)

Lemma replacePunct_class s c :
  In c (replacePunct s) -> (isWordChar c = true /\ In c s) \/ isSpace c = true.
Proof.
  unfold replacePunct. intro H. apply in_map_iff in H.
  destruct H as (x & E & Hx).
  destruct (isWordChar x) eqn:W; simpl in E.
  - subst. left. split; assumption.
  - destruct (isSpace x) eqn:S; subst; right; [exact S|reflexivity].
Qed.

Lemma replacePunct_fix s :
  (forall c, In c s -> isWordChar c || isSpace c = true) -> replacePunct s = s.
Proof.
  unfold replacePunct. induction s as [|c s IH]; intro H; [reflexivity|].
  simpl. rewrite (H c) by (left; reflexivity). f_equal.
  apply IH. intros d Hd. apply H. right. exact Hd.
Qed.

Lemma collapseFrom_tidy s : forall b, tidy b (collapseFrom b s) = true.
Proof.
  induction s as [|c s IH]; intro b; [reflexivity|].
  simpl. destruct (isSpace c) eqn:S.
  - destruct b; [apply IH|].
    simpl. apply IH.
  - simpl. rewrite S. apply IH.
Qed.

Lemma collapseFrom_fix s : forall b, tidy b s = true -> collapseFrom b s = s.
Proof.
  induction s as [|c s IH]; intros b H; [reflexivity|].
  simpl in *. destruct (isSpace c).
  - apply andb_true_iff in H. destruct H as [H T].
    apply andb_true_iff in H. destruct H as [E B].
    apply N.eqb_eq in E. destruct b; [discriminate|].
    rewrite IH by exact T. congruence.
  - rewrite IH by exact H. reflexivity.
Qed.

Lemma collapseFrom_in s : forall b c,
  In c (collapseFrom b s) -> c = SP \/ (In c s /\ isSpace c = false).
Proof.
  induction s as [|x s IH]; intros b c H; [destruct H|].
  simpl in H. destruct (isSpace x) eqn:S.
  - destruct b.
    + destruct (IH _ _ H) as [->|[I N]]; [left|right]; simpl; auto.
    + destruct H as [<-|H]; [left; reflexivity|].
      destruct (IH _ _ H) as [->|[I N]]; [left|right]; simpl; auto.
  - destruct H as [<-|H]; [right; simpl; auto|].
    destruct (IH _ _ H) as [->|[I N]]; [left|right]; simpl; auto.
Qed.

(** ** trim *)

Section DropWhile.

Variable p : unit16 -> bool.

Lemma dropWhile_split s :
  exists l, s = l ++ dropWhile p s /\ forallb p l = true.
Proof.
  induction s as [|c s (l & E & A)].
  - exists []. split; reflexivity.
  - simpl. destruct (p c) eqn:P.
    + exists (c :: l). simpl. rewrite P, A. split; [f_equal; exact E|reflexivity].
    + exists []. split; reflexivity.
Qed.

Lemma dropWhile_in s c : In c (dropWhile p s) -> In c s.
Proof.
  destruct (dropWhile_split s) as (l & E & _). intro H.
  rewrite E. apply in_or_app. right. exact H.
Qed.

Lemma dropWhile_head s c s' : dropWhile p s = c :: s' -> p c = false.
Proof.
  induction s as [|x s IH]; simpl; [discriminate|].
  destruct (p x) eqn:P; [exact IH|].
  intro E. injection E as -> _. exact P.
Qed.

Lemma dropWhile_fix c s : p c = false -> dropWhile p (c :: s) = c :: s.
Proof. intro H. simpl. rewrite H. reflexivity. Qed.

Lemma dropWhile_idem s : dropWhile p (dropWhile p s) = dropWhile p s.
Proof.
  destruct (dropWhile p s) as [|c s'] eqn:E; [reflexivity|].
  apply dropWhile_fix. eapply dropWhile_head. exact E.
Qed.

Lemma dropWhile_all s : forallb p s = true -> dropWhile p s = [].
Proof.
  induction s as [|c s IH]; [reflexivity|].
  simpl. destruct (p c); [exact IH|discriminate].
Qed.

Lemma dropWhile_snoc s c :
  p c = false -> dropWhile p (s ++ [c]) = dropWhile p s ++ [c].
Proof.
  intro H. induction s as [|x s IH]; simpl.
  - rewrite H. reflexivity.
  - destruct (p x); [exact IH|reflexivity].
Qed.

End DropWhile.

Lemma trimEnd_prefix s :
  exists l, s = trimEnd s ++ l /\ forallb isSpace l = true.
Proof.
  unfold trimEnd.
  destruct (dropWhile_split isSpace (rev s)) as (l & E & A).
  exists (rev l). split.
  - rewrite <- (rev_involutive s) at 1. rewrite E at 1. apply rev_app_distr.
  - rewrite forallb_forall in *. intros x Hx. apply A. apply in_rev. exact Hx.
Qed.

Lemma trimEnd_cons c s : isSpace c = false -> trimEnd (c :: s) = c :: trimEnd s.
Proof.
  intro H. unfold trimEnd. simpl.
  rewrite dropWhile_snoc by exact H.
  rewrite rev_app_distr. reflexivity.
Qed.

Lemma trimEnd_idem s : trimEnd (trimEnd s) = trimEnd s.
Proof.
  unfold trimEnd. rewrite rev_involutive, dropWhile_idem. reflexivity.
Qed.

Lemma trim_in s c : In c (trim s) -> In c s.
Proof.
  unfold trim, trimEnd, trimStart. intro H.
  apply in_rev in H. apply dropWhile_in in H. apply in_rev in H.
  eapply dropWhile_in. exact H.
Qed.

Lemma trimStart_trim s : trimStart (trim s) = trim s.
Proof.
  unfold trim, trimStart.
  destruct (dropWhile isSpace s) as [|c t] eqn:E; [reflexivity|].
  pose proof (dropWhile_head _ _ _ _ E) as H.
  rewrite (trimEnd_cons _ _ H). apply dropWhile_fix. exact H.
Qed.

Lemma trim_idem s : trim (trim s) = trim s.
Proof.
  unfold trim at 1. rewrite trimStart_trim.
  unfold trim. apply trimEnd_idem.
Qed.

Lemma trim_all_space s : forallb isSpace s = true -> trim s = [].
Proof.
  intro H. unfold trim, trimStart. rewrite dropWhile_all by exact H. reflexivity.
Qed.

(** The first code unit of a trimmed text is not white space. *)
Lemma trim_head s c t : trim s = c :: t -> isSpace c = false.
Proof.
  unfold trim, trimStart.
  destruct (dropWhile isSpace s) as [|x u] eqn:E; [discriminate|].
  pose proof (dropWhile_head _ _ _ _ E) as H.
  rewrite (trimEnd_cons _ _ H). intro I. injection I as <- _. exact H.
Qed.

Lemma tidy_any_false b s : tidy b s = true -> tidy false s = true.
Proof.
  destruct s as [|c s]; [reflexivity|]. simpl.
  destruct (isSpace c); [|auto].
  intro H. apply andb_true_iff in H. destruct H as [H T].
  apply andb_true_iff in H. destruct H as [E _].
  rewrite E, T. reflexivity.
Qed.

Lemma tidy_dropWhile s : forall b,
  tidy b s = true -> tidy false (dropWhile isSpace s) = true.
Proof.
  induction s as [|c s IH]; intros b H; [reflexivity|].
  simpl in *. destruct (isSpace c) eqn:S.
  - apply andb_true_iff in H. destruct H as [_ T]. eapply IH. exact T.
  - simpl. rewrite S. exact H.
Qed.

Lemma tidy_prefix a : forall b l, tidy b (a ++ l) = true -> tidy b a = true.
Proof.
  induction a as [|c a IH]; intros b l H; [reflexivity|].
  simpl in *. destruct (isSpace c).
  - apply andb_true_iff in H. destruct H as [H T].
    rewrite H. simpl. eapply IH. exact T.
  - eapply IH. exact H.
Qed.

Lemma tidy_trim s b : tidy b s = true -> tidy false (trim s) = true.
Proof.
  intro H. unfold trim, trimStart.
  apply tidy_dropWhile in H.
  destruct (trimEnd_prefix (dropWhile isSpace s)) as (l & E & _).
  rewrite E in H. eapply tidy_prefix. exact H.
Qed.

Lemma tidy_no_double_space s : forall b i,
  tidy b s = true ->
  nth_error s i = Some SP -> nth_error s (S i) <> Some SP.
Proof.
  induction s as [|c s IH]; intros b i T H; [destruct i; discriminate|].
  destruct i as [|i].
  - simpl in H. injection H as ->.
    destruct s as [|d s]; [discriminate|].
    simpl. intro E. injection E as ->.
    cbn [tidy] in T. rewrite SP_isSpace in T.
    apply andb_true_iff in T. destruct T as [_ T].
    apply andb_true_iff in T. destruct T as [T _].
    apply andb_true_iff in T. destruct T as [_ T]. discriminate.
  - simpl in H. simpl in T.
    destruct (isSpace c).
    + apply andb_true_iff in T. destruct T as [_ T]. exact (IH _ _ T H).
    + exact (IH _ _ T H).
Qed.

(** ** normalize *)

Lemma normalize_tidy s : tidy false (normalize s) = true.
Proof.
  unfold normalize, collapseSpaces.
  eapply tidy_trim. apply collapseFrom_tidy.
Qed.

Lemma normalize_charset s c : In c (normalize s) -> isNormChar c = true.
Proof.
  unfold normalize, collapseSpaces. intro H.
  apply trim_in in H. apply collapseFrom_in in H.
  destruct H as [->|[H S]]; [reflexivity|].
  apply replacePunct_class in H. destruct H as [[W I]|H]; [|congruence].
  apply toLowerCase_no_upper in I.
  unfold isNormChar. unfold isWordChar in W. rewrite I in W.
  rewrite orb_false_r in W. rewrite W. reflexivity.
Qed.

Lemma normalize_idempotent s : normalize (normalize s) = normalize s.
Proof.
  pose proof (normalize_charset s) as C.
  pose proof (normalize_tidy s) as T.
  unfold normalize at 1.
  rewrite toLowerCase_norm by exact C.
  rewrite replacePunct_fix.
  - unfold collapseSpaces. rewrite collapseFrom_fix by exact T.
    unfold normalize. apply trim_idem.
  - intros c Hc. destruct (normChar_cases _ (C c Hc)) as [(W & _)| -> ].
    + rewrite W. reflexivity.
    + reflexivity.
Qed.

(** C6: for every input [s], every code unit of [normalize s] is in
    [[a-z0-9_ ]], no space of [normalize s] is followed by another space,
    and [normalize (normalize s) = normalize s]. *)
Theorem normalize_canonical (s : jsstring) :
  forallb isNormChar (normalize s) = true
  /\ (forall i, nth_error (normalize s) i = Some SP ->
                nth_error (normalize s) (S i) <> Some SP)
  /\ normalize (normalize s) = normalize s.
Proof.
  split; [|split].
  - apply forallb_forall. apply normalize_charset.
  - intro i. apply (tidy_no_double_space _ false). apply normalize_tidy.
  - apply normalize_idempotent.
Qed.

(** ** calculateScore on the inputs of the specification *)

(** C2, as the code has it: [hi] has no word-boundary occurrence in
    [hike up the hill] but is a plain substring of it, so the score is
    10 + 2 = 12; in [hi there] it occurs between word boundaries and the
    score is 20 + 2 = 22. *)
Theorem score_word_boundary_precedence :
  regexTestBounded (lit "hi") (lit "hike up the hill") = false
  /\ includes (lit "hike up the hill") (lit "hi") = true
  /\ calculateScore (lit "hike up the hill") [lit "hi"] = 10 + 2
  /\ regexTestBounded (lit "hi") (lit "hi there") = true
  /\ calculateScore (lit "hi there") [lit "hi"] = 20 + 2.
Proof. repeat split; vm_compute; reflexivity. Qed.

(** C2 as stated fails: the score of [hike up the hill] against [hi] is
    not 0. *)
Lemma score_hike_not_zero :
  calculateScore (lit "hike up the hill") [lit "hi"] <> 0.
Proof. vm_compute. discriminate. Qed.

(** C3, as the code has it: [price subscription] is neither a
    word-boundary match nor a substring of [what is the subscription
    price]; both of its tokens are tokens of the input, the normalized
    keyword has 18 code units, and the score is 5 + 18 = 23. *)
Theorem score_token_intersection :
  let kw := lit "price subscription" in
  let input := lit "what is the subscription price" in
  normalize kw = kw
  /\ regexTestBounded kw input = false
  /\ includes input kw = false
  /\ allFound (split SP kw) (split SP input) = true
  /\ List.length kw = 18
  /\ calculateScore input [kw] = 5 + 18.
Proof. repeat split; vm_compute; reflexivity. Qed.

(** C3 as stated fails: the score is not 22. *)
Lemma score_price_subscription_not_22 :
  calculateScore (lit "what is the subscription price") [lit "price subscription"] <> 22.
Proof. vm_compute. discriminate. Qed.

(** ** findBestResponse *)

Lemma findBestResponse_normalize_nil (K : list KnowledgeEntry) (q : jsstring) :
  normalize q = [] -> findBestResponse q K = None.
Proof.
  intro H. unfold findBestResponse. rewrite H. reflexivity.
Qed.

(** C7: when [normalize q] is empty, [findBestResponse q K] is [null]
    whatever the knowledge base. *)
Theorem findBestResponse_empty_input (K : list KnowledgeEntry) (q : jsstring) :
  normalize q = [] -> findBestResponse q K = None.
Proof.
  intro H. unfold findBestResponse.
  replace (truthy (normalize q)) with false by (rewrite H; reflexivity).
  reflexivity.
Qed.

Lemma findBestResponse_empty_input_witness :
  normalize (lit "?!  ...") = [] /\ findBestResponse (lit "?!  ...") welcomeKB = None.
Proof.
  split; [reflexivity|].
  apply (findBestResponse_empty_input welcomeKB (lit "?!  ...")). reflexivity.
Defined.

Section ScanEntries.

Variable n : jsstring.

(** Entries that do not beat the current best leave it as it is. *)
Lemma scanEntries_keep K : forall bs br,
  (forall e, In e K -> keywordScore n e <= bs) ->
  scanEntries n bs br K = (bs, br).
Proof.
  induction K as [|e0 K IH]; intros bs br H; [reflexivity|].
  simpl. fold (keywordScore n e0).
  assert (L : keywordScore n e0 <= bs) by (apply H; left; reflexivity).
  apply Nat.ltb_ge in L. rewrite L.
  apply IH. intros e He. apply H. right. exact He.
Qed.

(** The first entry that reaches the highest score is the one kept. *)
Lemma scanEntries_first_max K : forall i e bs br,
  nth_error K i = Some e ->
  bs < keywordScore n e ->
  (forall e', In e' K -> keywordScore n e' <= keywordScore n e) ->
  (forall j e', j < i -> nth_error K j = Some e' -> keywordScore n e' < keywordScore n e) ->
  scanEntries n bs br K = (keywordScore n e, Some (response e)).
Proof.
  induction K as [|e0 K IH]; intros i e bs br N B M F.
  - destruct i; discriminate.
  - destruct i as [|i].
    + simpl in N. injection N as ->. simpl. fold (keywordScore n e).
      apply Nat.ltb_lt in B. rewrite B.
      apply scanEntries_keep. intros e' He'. apply M. right. exact He'.
    + simpl in N.
      assert (L : keywordScore n e0 < keywordScore n e) by (apply (F 0 e0); [lia|reflexivity]).
      assert (M' : forall e', In e' K -> keywordScore n e' <= keywordScore n e)
        by (intros e' He'; apply M; right; exact He').
      assert (F' : forall j e', j < i -> nth_error K j = Some e' -> keywordScore n e' < keywordScore n e)
        by (intros j e' Hj Hn; apply (F (S j) e'); [lia|exact Hn]).
      simpl. fold (keywordScore n e0).
      destruct (bs <? keywordScore n e0) eqn:C.
      * apply (IH i e); assumption.
      * apply (IH i e); assumption.
Qed.

(** If some entry has a positive score, some entry is the first best. *)
Lemma first_max_exists K :
  (exists e, In e K /\ 0 < keywordScore n e) ->
  exists i e, nth_error K i = Some e /\ 0 < keywordScore n e
    /\ (forall e', In e' K -> keywordScore n e' <= keywordScore n e)
    /\ (forall j e', j < i -> nth_error K j = Some e' -> keywordScore n e' < keywordScore n e).
Proof.
  induction K as [|e0 K IH]; intros (e & He & P); [destruct He|].
  destruct (Nat.eq_dec (List.length (filter (fun e' => keywordScore n e0 <? keywordScore n e') K)) 0) as [Z|NZ].
  - (* the head is not beaten by anything after it *)
    assert (A : forall e', In e' K -> keywordScore n e' <= keywordScore n e0).
    { intros e' He'. apply Nat.ltb_ge.
      destruct (keywordScore n e0 <? keywordScore n e') eqn:C; [|reflexivity].
      exfalso. apply length_zero_iff_nil in Z.
      assert (I : In e' (filter (fun e' => keywordScore n e0 <? keywordScore n e') K))
        by (apply filter_In; split; assumption).
      rewrite Z in I. destruct I. }
    exists 0, e0. split; [reflexivity|]. split; [|split].
    + destruct He as [<-|He]; [exact P|]. specialize (A _ He). lia.
    + intros e' [<-|He']; [lia|apply A; exact He'].
    + intros j e' Hj. lia.
  - (* something after the head beats it *)
    assert (B : exists e', In e' K /\ keywordScore n e0 < keywordScore n e').
    { destruct (filter (fun e' => keywordScore n e0 <? keywordScore n e') K) as [|e' l] eqn:Fl;
        [simpl in NZ; lia|].
      assert (I : In e' (filter (fun e' => keywordScore n e0 <? keywordScore n e') K))
        by (rewrite Fl; left; reflexivity).
      apply filter_In in I. destruct I as [I C]. apply Nat.ltb_lt in C.
      exists e'. split; assumption. }
    destruct B as (e' & He' & C).
    destruct IH as (i & e1 & N & P1 & M & F).
    { exists e'. split; [exact He'|lia]. }
    assert (L : keywordScore n e0 < keywordScore n e1) by (specialize (M _ He'); lia).
    exists (S i), e1. split; [exact N|]. split; [exact P1|]. split.
    + intros e2 [<-|H2]; [lia|apply M; exact H2].
    + intros [|j] e2 Hj Hn.
      * simpl in Hn. injection Hn as <-. exact L.
      * simpl in Hn. apply (F j e2); [lia|exact Hn].
Qed.

End ScanEntries.

Lemma truthy_normalize q : normalize q <> [] -> negb (truthy (normalize q)) = false.
Proof. destruct (normalize q); [congruence|reflexivity]. Qed.

Lemma findBestResponse_of_firstBest q K i e :
  normalize q <> [] -> firstBest q K i e ->
  findBestResponse q K = Some (response e).
Proof.
  intros NE (N & P & M & F). unfold findBestResponse.
  rewrite (truthy_normalize q NE).
  rewrite (scanEntries_first_max (normalize q) K i e 0 None N P M F).
  apply Nat.ltb_lt in P. unfold entryScore in P. rewrite P. reflexivity.
Qed.

Lemma findBestResponse_all_zero q K :
  (forall e, In e K -> entryScore q e = 0) -> findBestResponse q K = None.
Proof.
  intro Z. unfold findBestResponse.
  destruct (negb (truthy (normalize q))); [reflexivity|].
  rewrite (scanEntries_keep (normalize q) K 0 None); [reflexivity|].
  intros e He. specialize (Z e He). unfold entryScore in Z. lia.
Qed.

Lemma firstBest_exists q K :
  (exists e, In e K /\ 0 < entryScore q e) -> exists i e, firstBest q K i e.
Proof. intro E. apply (first_max_exists (normalize q) K E). Qed.

(** C5: for an input whose normal form is not empty, [findBestResponse]
    returns the response of the first entry that reaches the highest score
    (so the entry with the strictly highest score when there is one, and
    the earlier entry on a tie); it returns [null] when no entry has a
    positive score, and whenever some entry has one there is such a first
    best entry.  Being a function of the input and the sequence, it gives
    the same answer on every call. *)
Theorem findBestResponse_first_best (q : jsstring) (K : list KnowledgeEntry) :
  normalize q <> [] ->
  (forall i e, firstBest q K i e -> findBestResponse q K = Some (response e))
  /\ ((forall e, In e K -> entryScore q e = 0) -> findBestResponse q K = None)
  /\ ((exists e, In e K /\ 0 < entryScore q e) -> exists i e, firstBest q K i e).
Proof.
  intro NE. split; [|split].
  - intros i e F. exact (findBestResponse_of_firstBest q K i e NE F).
  - apply findBestResponse_all_zero.
  - apply firstBest_exists.
Qed.

Lemma findBestResponse_first_best_witness :
  normalize (lit "Hi!") <> []
  /\ firstBest (lit "Hi!") tieKB 0 (mkEntry "Welcome" ["hello"; "hi"]%string "Hello! I am Aarya AI.")
  /\ findBestResponse (lit "Hi!") tieKB = Some (lit "Hello! I am Aarya AI.").
Proof.
  assert (NE : normalize (lit "Hi!") <> []) by (vm_compute; discriminate).
  assert (FB : firstBest (lit "Hi!") tieKB 0
                 (mkEntry "Welcome" ["hello"; "hi"]%string "Hello! I am Aarya AI.")).
  { split; [reflexivity|]. split; [vm_compute; lia|]. split.
    - intros e' [<-|[<-|[]]]; vm_compute; lia.
    - intros j e' Hj. lia. }
  split; [exact NE|]. split; [exact FB|].
  exact (proj1 (findBestResponse_first_best (lit "Hi!") tieKB NE) 0 _ FB).
Defined.

(** ** processEmotionAndText *)

Lemma startsWith_app p : forall s,
  startsWith p s = true -> s = p ++ skipn (List.length p) s.
Proof.
  induction p as [|x p IH]; intros s H; [reflexivity|].
  destruct s as [|c s]; [discriminate|].
  simpl in H. apply andb_true_iff in H. destruct H as [E H].
  apply N.eqb_eq in E. subst c. simpl. f_equal. apply IH. exact H.
Qed.

Lemma startsWith_prefix p b : startsWith p (p ++ b) = true.
Proof.
  induction p as [|x p IH]; [reflexivity|].
  simpl. rewrite N.eqb_refl. exact IH.
Qed.

Lemma replace_unfold s pat rep :
  replace s pat rep =
  if startsWith pat s then rep ++ skipn (List.length pat) s
  else match s with
       | [] => []
       | c :: s' => c :: replace s' pat rep
       end.
Proof. destruct s; reflexivity. Qed.

Lemma includes_unfold s pat :
  includes s pat =
  startsWith pat s || match s with [] => false | _ :: s' => includes s' pat end.
Proof. destruct s; reflexivity. Qed.

(** [replace s p []] takes out the occurrence of [p] that starts
    earliest in [s]. *)
Lemma replace_first_occurrence p : forall s,
  includes s p = true ->
  exists a b, s = a ++ p ++ b
    /\ replace s p [] = a ++ b
    /\ (forall a' b', s = a' ++ p ++ b' -> List.length a <= List.length a').
Proof.
  induction s as [|c s IH]; intro H.
  - rewrite includes_unfold, orb_false_r in H.
    exists [], (skipn (List.length p) []). split; [|split].
    + apply (startsWith_app p []). exact H.
    + rewrite replace_unfold, H. reflexivity.
    + intros. simpl. lia.
  - rewrite includes_unfold in H. rewrite replace_unfold.
    destruct (startsWith p (c :: s)) eqn:P.
    + exists [], (skipn (List.length p) (c :: s)). split; [|split].
      * apply (startsWith_app p (c :: s)). exact P.
      * reflexivity.
      * intros. simpl. lia.
    + simpl in H. destruct (IH H) as (a & b & E & R & M).
      exists (c :: a), b. split; [|split].
      * simpl. f_equal. exact E.
      * simpl. f_equal. exact R.
      * intros a' b' E'. destruct a' as [|x a'].
        -- simpl in E'. rewrite E' in P. rewrite startsWith_prefix in P. discriminate.
        -- simpl in E'. injection E' as _ E'. simpl. apply le_n_S. eapply M. exact E'.
Qed.

Lemma processEmotionAndText_find s :
  processEmotionAndText s =
  trim (match find (includes s) TAGS with
        | Some T => replace s T []
        | None => s
        end).
Proof.
  unfold processEmotionAndText, TAGS. cbn [List.map find].
  destruct (includes s (lit "[HAPPY]")); [reflexivity|].
  destruct (includes s (lit "[SAD]")); [reflexivity|].
  destruct (includes s (lit "[ANGRY]")); [reflexivity|].
  destruct (includes s (lit "[SURPRISED]")); [reflexivity|].
  destruct (includes s (lit "[THINKING]")); [reflexivity|].
  destruct (includes s (lit "[NEUTRAL]")); reflexivity.
Qed.

(** C1, as the code has it: for each of the six tags the parser tests,
    [T + " hello"] gives [hello]; the parser returns the text alone; it
    looks for the tags anywhere in the reply, in the fixed order of
    [TAGS], takes out the earliest occurrence of the first tag of that
    order that the reply contains, and trims; a reply that contains none
    of the seven tags is returned trimmed. *)
Theorem processEmotionAndText_tags :
  Forall (fun T => processEmotionAndText (T ++ lit " hello") = lit "hello") TAGS
  /\ (forall s T, find (includes s) TAGS = Some T ->
        exists a b, s = a ++ T ++ b
          /\ (forall a' b', s = a' ++ T ++ b' -> List.length a <= List.length a')
          /\ processEmotionAndText s = trim (a ++ b))
  /\ (forall s, (forall T, In T (TAGS ++ [CONCERNED]) -> includes s T = false) ->
        processEmotionAndText s = trim s).
Proof.
  split; [|split].
  - unfold TAGS. cbn [List.map]. repeat constructor; vm_compute; reflexivity.
  - intros s T F. rewrite processEmotionAndText_find, F.
    apply find_some in F. destruct F as [_ I].
    destruct (replace_first_occurrence T s I) as (a & b & E & R & M).
    exists a, b. split; [exact E|]. split; [exact M|]. rewrite R. reflexivity.
  - intros s H. rewrite processEmotionAndText_find.
    destruct (find (includes s) TAGS) as [T|] eqn:F; [|reflexivity].
    apply find_some in F. destruct F as [I C].
    rewrite H in C; [discriminate|]. apply in_or_app. left. exact I.
Qed.

(** C1 as stated fails: a reply that starts with the tag [SAD] and has
    the tag [HAPPY] further on keeps its leading tag and loses the later
    one. *)
Lemma processEmotionAndText_not_leading :
  processEmotionAndText (lit "[SAD] hi [HAPPY]") = lit "[SAD] hi"
  /\ processEmotionAndText (lit "[SAD] hi [HAPPY]") <> lit "hi [HAPPY]".
Proof. split; vm_compute; [reflexivity|discriminate]. Qed.

(** The tag [CONCERNED], which the prompt lists, is not among the tags
    the parser tests: it stays in the text. *)
Example processEmotionAndText_concerned :
  processEmotionAndText (CONCERNED ++ lit " hello") = lit "[CONCERNED] hello".
Proof. vm_compute. reflexivity. Qed.

(** ** Scores against an empty input *)

Lemma split_head_nonempty c t :
  c <> SP -> exists t0 ts, split SP (c :: t) = (c :: t0) :: ts.
Proof.
  intro H. simpl. apply N.eqb_neq in H. rewrite H.
  destruct (split SP t) as [|t0 ts]; eauto.
Qed.

Lemma normalize_head k c t : normalize k = c :: t -> c <> SP.
Proof.
  unfold normalize. intros H E. apply trim_head in H.
  subst c. rewrite SP_isSpace in H. discriminate.
Qed.

(** No keyword scores against the empty input. *)
Lemma calculateScoreFrom_empty_input kws : forall m,
  calculateScoreFrom m [] kws = m.
Proof.
  induction kws as [|k kws IH]; intro m; [reflexivity|].
  cbn [calculateScoreFrom].
  destruct (normalize k) as [|c t] eqn:E; [apply IH|].
  cbn [truthy negb streq].
  unfold regexTestBounded. cbn [searchBounded matchBoundedAt hd_error boundary wordAt xorb andb orb].
  cbn [includes startsWith orb].
  destruct (split_head_nonempty c t (normalize_head _ _ _ E)) as (t0 & ts & S).
  rewrite S. cbn [split allFound forallb existsb streq orb andb].
  match goal with |- (if ?b then _ else _) = _ => destruct b end; apply IH.
Qed.

Lemma calculateScore_empty_input kws : calculateScore [] kws = 0.
Proof. apply calculateScoreFrom_empty_input. Qed.

(** [findBestResponse] is [null] exactly when no entry has a positive
    score. *)
Lemma findBestResponse_none_iff q K :
  findBestResponse q K = None <-> (forall e, In e K -> entryScore q e = 0).
Proof.
  destruct (normalize q) as [|c t] eqn:E.
  - split.
    + intros _ e _. unfold entryScore, keywordScore. rewrite E. apply calculateScore_empty_input.
    + intros _. apply findBestResponse_normalize_nil. exact E.
  - assert (NE : normalize q <> []) by (rewrite E; discriminate).
    split; [|apply findBestResponse_all_zero].
    intros H e He. destruct (entryScore q e) eqn:S; [reflexivity|].
    destruct (firstBest_exists q K) as (i & e1 & F).
    { exists e. split; [exact He|lia]. }
    rewrite (findBestResponse_of_firstBest q K i e1 NE F) in H. discriminate.
Qed.

(** ** getGeminiResponse *)

(** The promise of [getGeminiResponse] is never rejected. *)
Lemma getGeminiResponse_resolves e prompt ai :
  exists v, fst (Gemini.getGeminiResponse e prompt ai) = Resolved v.
Proof.
  unfold Gemini.getGeminiResponse.
  destruct ai as [c|].
  - destruct (Gemini.generateContent e c prompt) as [[t|]|]; simpl; eauto.
  - destruct (Gemini.getEnvKey e) as [k|]; [|simpl; eauto].
    destruct (Gemini.initializeGeminiClient e k None) as [c|]; [|simpl; eauto].
    destruct (Gemini.generateContent e c prompt) as [[t|]|]; simpl; eauto.
Qed.

Lemma getGeminiResponse_unconfigured e prompt :
  Gemini.getEnvKey e = None ->
  Gemini.getGeminiResponse e prompt None = (Resolved Gemini.NOT_CONFIGURED, None).
Proof.
  intro H. unfold Gemini.getGeminiResponse. rewrite H. reflexivity.
Qed.

(** ** handleUserMessage *)

Lemma app_one_not_self {A : Type} (l : list A) (x : A) : l ++ [x] <> l.
Proof.
  intro H. apply (f_equal (@List.length A)) in H.
  rewrite length_app in H. simpl in H. lia.
Qed.

Lemma handleUserMessage_local r text st :
  truthyOrNull (findBestResponse text (knowledgeBase st)) = true ->
  geminiCalls (handleUserMessage r text st) = geminiCalls st.
Proof.
  intro H. unfold handleUserMessage. cbn [knowledgeBase setIsTyping pushMessage].
  rewrite H. reflexivity.
Qed.

Lemma handleUserMessage_fallback r text st :
  truthyOrNull (findBestResponse text (knowledgeBase st)) = false ->
  geminiCalls (handleUserMessage r text st) = geminiCalls st ++ [text].
Proof.
  intro H. unfold handleUserMessage. cbn [knowledgeBase setIsTyping pushMessage].
  rewrite H. destruct (gemini r text); reflexivity.
Qed.

Lemma handleUserMessage_resolved r text st raw :
  truthyOrNull (findBestResponse text (knowledgeBase st)) = false ->
  gemini r text = Resolved raw ->
  getProp (lastMessage (handleUserMessage r text st)) "text"
  = Str (processEmotionAndText raw).
Proof.
  intros H G. unfold handleUserMessage, lastMessage.
  cbn [knowledgeBase setIsTyping pushMessage]. rewrite H, G.
  cbn [messages setIsTyping pushMessage logCall].
  rewrite last_last. reflexivity.
Qed.

Lemma handleUserMessage_rejected r text st :
  truthyOrNull (findBestResponse text (knowledgeBase st)) = false ->
  gemini r text = Rejected ->
  lastMessage (handleUserMessage r text st)
  = Message (toString (now r 2 + 1))
            (optionToVal (getRandomDefaultResponse (random r))) "bot" (now r 3).
Proof.
  intros H G. unfold handleUserMessage, lastMessage.
  cbn [knowledgeBase setIsTyping pushMessage]. rewrite H, G.
  cbn [messages setIsTyping pushMessage logCall].
  apply last_last.
Qed.

(** A response that [findBestResponse] returns is the response of an
    entry with a positive score. *)
Lemma findBestResponse_some q K resp :
  findBestResponse q K = Some resp ->
  exists e, In e K /\ 0 < entryScore q e /\ resp = response e.
Proof.
  intro H.
  destruct (normalize q) as [|c t] eqn:E.
  - rewrite findBestResponse_normalize_nil in H by exact E. discriminate.
  - assert (NE : normalize q <> []) by (rewrite E; discriminate).
    assert (P : exists e, In e K /\ 0 < entryScore q e).
    { destruct (existsb (fun e => 0 <? entryScore q e) K) eqn:X.
      - apply existsb_exists in X. destruct X as (e & He & L).
        apply Nat.ltb_lt in L. eauto.
      - rewrite findBestResponse_all_zero in H; [discriminate|].
        intros e He. destruct (entryScore q e) eqn:S; [reflexivity|].
        assert (Y : existsb (fun e => 0 <? entryScore q e) K = true).
        { apply existsb_exists. exists e. split; [exact He|].
          rewrite S. reflexivity. }
        congruence. }
    destruct (firstBest_exists q K P) as (i & e & F).
    rewrite (findBestResponse_of_firstBest q K i e NE F) in H. injection H as <-.
    destruct F as (N & L & _). exists e.
    split; [eapply nth_error_In; exact N|]. split; [exact L|reflexivity].
Qed.

(** C4, as the code has it: the handler calls the fallback responder
    once when [findBestResponse] returns [null] or the empty string, and
    not at all when it returns a response that is not empty; over a
    knowledge base whose responses are all non-empty the fallback is called
    (once) if and only if no entry has a positive score. *)
Theorem fallback_iff_no_usable_match (r : Run) (text : jsstring) (st : State) :
  let found := findBestResponse text (knowledgeBase st) in
  let calls := geminiCalls (handleUserMessage r text st) in
  (found = None \/ found = Some [] -> calls = geminiCalls st ++ [text])
  /\ (forall resp, found = Some resp -> resp <> [] -> calls = geminiCalls st)
  /\ ((forall e, In e (knowledgeBase st) -> response e <> []) ->
      ((forall e, In e (knowledgeBase st) -> entryScore text e = 0)
         <-> calls = geminiCalls st ++ [text])
      /\ ((exists e, In e (knowledgeBase st) /\ 0 < entryScore text e)
         <-> calls = geminiCalls st)).
Proof.
  intros found calls.
  assert (P1 : found = None \/ found = Some [] -> calls = geminiCalls st ++ [text]).
  { intro H. apply handleUserMessage_fallback. fold found.
    destruct H as [-> | ->]; reflexivity. }
  assert (P2 : forall resp, found = Some resp -> resp <> [] -> calls = geminiCalls st).
  { intros resp H NE. apply handleUserMessage_local. fold found. rewrite H.
    destruct resp; [congruence|reflexivity]. }
  split; [exact P1|]. split; [exact P2|].
  intro R.
  assert (P3 : forall resp, found = Some resp -> resp <> []).
  { intros resp H. apply findBestResponse_some in H.
    destruct H as (e & He & _ & ->). apply R. exact He. }
  split; split.
  - intro Z. apply P1. left. apply findBestResponse_none_iff. exact Z.
  - intro C. destruct found as [resp|] eqn:F.
    + rewrite (P2 resp eq_refl (P3 resp eq_refl)) in C.
      symmetry in C. apply app_one_not_self in C. destruct C.
    + apply findBestResponse_none_iff. exact F.
  - intros (e & He & L). destruct found as [resp|] eqn:F.
    + apply (P2 resp eq_refl (P3 resp eq_refl)).
    + pose proof (proj1 (findBestResponse_none_iff text (knowledgeBase st)) F e He). lia.
  - intro C. destruct found as [resp|] eqn:F.
    + apply findBestResponse_some in F. destruct F as (e & He & L & _). eauto.
    + rewrite (P1 (or_introl eq_refl)) in C. apply app_one_not_self in C. destruct C.
Qed.

Lemma fallback_iff_no_usable_match_witness :
  (forall e, In e welcomeKB -> response e <> [])
  /\ geminiCalls (handleUserMessage rejectingRun (lit "Hi there!") (freshState welcomeKB))
     = geminiCalls (freshState welcomeKB).
Proof.
  assert (R : forall e, In e welcomeKB -> response e <> [])
    by (intros e [<-|[]]; discriminate).
  split; [exact R|].
  pose proof (fallback_iff_no_usable_match rejectingRun (lit "Hi there!")
                (freshState welcomeKB)) as P.
  cbv zeta in P. destruct P as (_ & _ & P).
  apply (proj1 (proj2 (P R))).
  exists (mkEntry "Welcome" ["hello"; "hi"]%string "Hello! I am Aarya AI.").
  split; [left; reflexivity|vm_compute; lia].
Defined.

(** C4 as stated fails: over [silentKB] the input [hi] has an entry of
    score 100 and [findBestResponse] returns its response, the empty
    string, yet the handler calls the fallback responder. *)
Lemma fallback_despite_match :
  entryScore (lit "hi") (mkEntry "Mute" ["hi"]%string "") = 100
  /\ findBestResponse (lit "hi") silentKB = Some []
  /\ geminiCalls (handleUserMessage rejectingRun (lit "hi") (freshState silentKB))
     = [lit "hi"].
Proof. repeat split; vm_compute; reflexivity. Qed.

(** How [Gemini.getGeminiResponse] says the promise settles is what the
    body with its [await] in sight comes to once the awaited request has
    ended. *)
Lemma getGeminiResponse_settle e prompt ai :
  Gemini.getGeminiResponse e prompt ai
  = (Async.settle e (fst (Async.getGeminiResponse e prompt ai)),
     snd (Async.getGeminiResponse e prompt ai)).
Proof.
  unfold Gemini.getGeminiResponse, Async.getGeminiResponse.
  destruct ai as [c|].
  - cbn [fst snd Async.settle].
    destruct (Gemini.generateContent e c prompt) as [[t|]|]; reflexivity.
  - destruct (Gemini.getEnvKey e) as [k|]; [|reflexivity].
    destruct (Gemini.initializeGeminiClient e k None) as [c|]; [|reflexivity].
    cbn [fst snd Async.settle].
    destruct (Gemini.generateContent e c prompt) as [[t|]|]; reflexivity.
Qed.

(** With a client, the promise is pending when the call returns: the
    body waits for one request, the prompt sent with that client. *)
Lemma getGeminiResponse_pending e prompt ai client :
  snd (Async.getGeminiResponse e prompt ai) = Some client ->
  (forall v, fst (Async.getGeminiResponse e prompt ai) <> Async.Fulfilled v)
  /\ Async.awaited e (fst (Async.getGeminiResponse e prompt ai)) = [(client, prompt)].
Proof.
  unfold Async.getGeminiResponse.
  destruct ai as [c|].
  - cbn [fst snd]. intro H. injection H as <-. split; [discriminate|].
    cbn [Async.awaited].
    destruct (Gemini.generateContent e c prompt) as [[t|]|]; reflexivity.
  - destruct (Gemini.getEnvKey e) as [k|]; [|discriminate].
    destruct (Gemini.initializeGeminiClient e k None) as [c|]; [|discriminate].
    cbn [fst snd]. intro H. injection H as <-. split; [discriminate|].
    cbn [Async.awaited].
    destruct (Gemini.generateContent e c prompt) as [[t|]|]; reflexivity.
Qed.

Lemma getGeminiResponse_fulfilled_at_once e prompt :
  Gemini.getEnvKey e = None ->
  Async.getGeminiResponse e prompt None = (Async.Fulfilled Gemini.NOT_CONFIGURED, None).
Proof.
  intro H. unfold Async.getGeminiResponse. rewrite H. reflexivity.
Qed.

(** C8: without a credential ([ai] is [null] and [getEnvKey] finds no
    key) the body of [getGeminiResponse] gets to its [return] without
    waiting for anything: the promise is fulfilled when the call returns,
    no request to the service has been made, and the value is the fixed
    reply that starts with the tag [SAD] and tells where to add the key.
    The promise is resolved, not rejected, and the handler shows that reply,
    tag removed, through its normal path. *)
Theorem unconfigured_reply_resolved (e : Gemini.Env) (prompt : jsstring) :
  Gemini.getEnvKey e = None ->
  Async.getGeminiResponse e prompt None = (Async.Fulfilled Gemini.NOT_CONFIGURED, None)
  /\ Async.awaited e (fst (Async.getGeminiResponse e prompt None)) = []
  /\ Gemini.getGeminiResponse e prompt None = (Resolved Gemini.NOT_CONFIGURED, None)
  /\ startsWith (lit "[SAD]") Gemini.NOT_CONFIGURED = true
  /\ includes Gemini.NOT_CONFIGURED
       (lit "Please click the Settings icon (gear) and add your Gemini API Key") = true
  /\ (forall clock rnd st,
        truthyOrNull (findBestResponse prompt (knowledgeBase st)) = false ->
        getProp (lastMessage (handleUserMessage (geminiRun e clock rnd) prompt st)) "text"
        = Str (lit "I couldn't find a local answer, and my connection to Gemini is not configured. Please click the Settings icon (gear) and add your Gemini API Key in the 'Connections' tab.")).
Proof.
  intro H.
  split; [apply getGeminiResponse_fulfilled_at_once; exact H|].
  split; [rewrite getGeminiResponse_fulfilled_at_once by exact H; reflexivity|].
  split; [apply getGeminiResponse_unconfigured; exact H|].
  split; [reflexivity|]. split; [vm_compute; reflexivity|].
  intros clock rnd st L.
  rewrite (handleUserMessage_resolved (geminiRun e clock rnd) prompt st
             Gemini.NOT_CONFIGURED L).
  - vm_compute. reflexivity.
  - cbn [gemini geminiRun]. rewrite getGeminiResponse_unconfigured by exact H.
    reflexivity.
Qed.

Lemma unconfigured_reply_resolved_witness :
  Gemini.getEnvKey noCredential = None
  /\ Async.getGeminiResponse noCredential (lit "what is your refund policy") None
     = (Async.Fulfilled Gemini.NOT_CONFIGURED, None)
  /\ Async.awaited noCredential
       (fst (Async.getGeminiResponse noCredential (lit "what is your refund policy") None))
     = []
  /\ Gemini.getGeminiResponse noCredential (lit "what is your refund policy") None
     = (Resolved Gemini.NOT_CONFIGURED, None).
Proof.
  split; [reflexivity|].
  destruct (unconfigured_reply_resolved noCredential
              (lit "what is your refund policy") eq_refl) as (A & B & C & _).
  split; [exact A|]. split; [exact B|exact C].
Defined.

(** With the key of [networkDown] the same call waits for the service:
    the promise is pending when the call returns. *)
Example getGeminiResponse_waits_with_key :
  Async.awaited networkDown
    (fst (Async.getGeminiResponse networkDown (lit "what is your refund policy") None))
  = [({| Gemini.apiKey := lit "AIza-test-key" |}, lit "what is your refund policy")].
Proof. reflexivity. Qed.

(** ** A failure of the service *)

Lemma default_index_bounds (rnd : Q) :
  (0 <= rnd)%Q -> (rnd < 1)%Q ->
  exists k, k < 4
    /\ Qfloor (rnd * 4) = Z.of_nat k
    /\ (inject_Z (Z.of_nat k) <= rnd * 4)%Q
    /\ (rnd * 4 < inject_Z (Z.of_nat k) + 1)%Q.
Proof.
  intros L U.
  pose proof (Qfloor_le (rnd * 4)) as F1.
  pose proof (Qlt_floor (rnd * 4)) as F2.
  assert (P : (0 <= Qfloor (rnd * 4))%Z).
  { change 0%Z with (Qfloor (inject_Z 0)). apply Qfloor_resp_le.
    change (inject_Z 0) with (0 * 4)%Q. apply Qmult_le_compat_r; [exact L|discriminate]. }
  assert (B : (Qfloor (rnd * 4) < 4)%Z).
  { rewrite Zlt_Qlt. eapply Qle_lt_trans; [exact F1|].
    change (inject_Z 4) with (1 * 4)%Q. apply Qmult_lt_compat_r; [reflexivity|exact U]. }
  exists (Z.to_nat (Qfloor (rnd * 4))).
  rewrite Z2Nat.id by exact P.
  split; [lia|]. split; [reflexivity|]. split; [exact F1|].
  rewrite inject_Z_plus in F2. exact F2.
Qed.

Lemma getRandomDefaultResponse_index (rnd : Q) (k : nat) :
  Qfloor (rnd * 4) = Z.of_nat k ->
  getRandomDefaultResponse rnd = nth_error DEFAULT_RESPONSES k.
Proof.
  intro H. unfold getRandomDefaultResponse.
  change (inject_Z (Z.of_nat (List.length DEFAULT_RESPONSES))) with (inject_Z 4).
  change (inject_Z 4) with (4 : Q). rewrite H.
  destruct (Z.of_nat k <? 0)%Z eqn:C; [apply Z.ltb_lt in C; lia|].
  rewrite Nat2Z.id. reflexivity.
Qed.







(** ** Inputs without ASCII word characters *)

Lemma replacePunct_no_word t :
  noWordChar t = true -> forallb isSpace (replacePunct t) = true.
Proof.
  unfold noWordChar, replacePunct. induction t as [|c t IH]; [reflexivity|].
  simpl. intro H. apply andb_true_iff in H. destruct H as [W H].
  apply negb_true_iff in W. rewrite W. simpl.
  rewrite (IH H), andb_true_r.
  destruct (isSpace c) eqn:S; [exact S|reflexivity].
Qed.

Lemma collapse_all_space u :
  forallb isSpace u = true -> forallb isSpace (collapseSpaces u) = true.
Proof.
  intro H. apply forallb_forall. intros c Hc.
  apply collapseFrom_in in Hc. destruct Hc as [-> | [I S]]; [reflexivity|].
  rewrite forallb_forall in H. rewrite (H c I) in S. discriminate.
Qed.

Lemma normalize_no_word s :
  noWordChar (toLowerCase s) = true -> normalize s = [].
Proof.
  intro H. unfold normalize. apply trim_all_space.
  apply collapse_all_space. apply replacePunct_no_word. exact H.
Qed.

(** Devanagari has no case: lower-casing leaves it as it is, and none of
    its code units is an ASCII word character. *)
Lemma devanagari_no_word s :
  isDevanagari s = true -> noWordChar (toLowerCase s) = true.
Proof.
  unfold isDevanagari, noWordChar, toLowerCase.
  induction s as [|c s IH]; [reflexivity|].
  simpl. intro H. apply andb_true_iff in H. destruct H as [D H].
  rewrite forallb_app, (IH H), andb_true_r.
  assert (R : (2304 <= c <= 2431)%N) by (class_arith; lia).
  unfold lowerUnit.
  assert (U : isUpperAscii c = false).
  { unfold isUpperAscii, inRange. apply andb_false_iff. right. apply N.leb_gt. lia. }
  assert (E1 : (c =? 304)%N = false) by (apply N.eqb_neq; lia).
  assert (E2 : (c =? 8490)%N = false) by (apply N.eqb_neq; lia).
  rewrite U, E1, E2. simpl. rewrite andb_true_r. apply negb_true_iff.
  unfold isWordChar, isLowerAscii, isDigit, inRange. rewrite U.
  assert (A : (c <=? 122)%N = false) by (apply N.leb_gt; lia).
  assert (B : (c <=? 57)%N = false) by (apply N.leb_gt; lia).
  assert (C : (c =? 95)%N = false) by (apply N.eqb_neq; lia).
  rewrite A, B, C, !andb_false_r. reflexivity.
Qed.

(** C10, as the code has it: an input whose lower-case form has no ASCII
    word character (an utterance in Devanagari script is one) normalizes
    to the empty string, [findBestResponse] returns [null] for it whatever
    the knowledge base, and the handler calls the fallback responder. *)
Theorem no_word_char_falls_back (s : jsstring) :
  (isDevanagari s = true -> noWordChar (toLowerCase s) = true)
  /\ (noWordChar (toLowerCase s) = true ->
      normalize s = []
      /\ (forall K, findBestResponse s K = None)
      /\ (forall r st, geminiCalls (handleUserMessage r s st) = geminiCalls st ++ [s])).
Proof.
  split; [apply devanagari_no_word|].
  intro H. pose proof (normalize_no_word s H) as E.
  split; [exact E|]. split.
  - intro K. apply findBestResponse_normalize_nil. exact E.
  - intros r st. apply handleUserMessage_fallback.
    rewrite findBestResponse_normalize_nil by exact E. reflexivity.
Qed.

Lemma no_word_char_falls_back_witness :
  isDevanagari namaste = true
  /\ normalize namaste = []
  /\ findBestResponse namaste welcomeKB = None.
Proof.
  destruct (no_word_char_falls_back namaste) as [D F].
  split; [reflexivity|].
  destruct (F (D eq_refl)) as (E & N & _).
  split; [exact E|apply N].
Defined.

(** C10 as stated fails: the Kelvin sign is not an ASCII word character,
    yet its lower case is the letter [k]; the input normalizes to [k], an
    entry with the keyword [k] answers it and the fallback responder is
    not called. *)
Lemma kelvin_matches_locally :
  noWordChar kelvin = true
  /\ normalize kelvin = lit "k"
  /\ findBestResponse kelvin kelvinKB = Some (lit "The kelvin is the unit of temperature.")
  /\ geminiCalls (handleUserMessage rejectingRun kelvin (freshState kelvinKB)) = [].
Proof. repeat split; vm_compute; reflexivity. Qed.

(** ** The case table outside ASCII

    [normalize] sees of the lower-cased text only its ASCII word
    characters and where the gaps between them are.  Hence any lower-casing
    that agrees with [lowerUnit] on ASCII, on U+0130 and on U+212A, and
    that sends every other code unit to a non-empty run of code units
    outside [\w], gives the same normal form as [toLowerCase]. *)

Lemma collapseFrom_skip_spaces w z :
  forallb isSpace w = true -> collapseFrom true (w ++ z) = collapseFrom true z.
Proof.
  induction w as [|c w IH]; [reflexivity|].
  simpl. intro H. apply andb_true_iff in H. destruct H as [S H].
  rewrite S. apply IH. exact H.
Qed.

Lemma collapseFrom_gap w z b :
  w <> [] -> forallb isSpace w = true ->
  collapseFrom b (w ++ z) = (if b then [] else [SP]) ++ collapseFrom true z.
Proof.
  destruct w as [|c w]; [congruence|]. intros _ H.
  simpl in H. apply andb_true_iff in H. destruct H as [S H].
  simpl. rewrite S, (collapseFrom_skip_spaces w z H).
  destruct b; reflexivity.
Qed.

Lemma replacePunct_app x y : replacePunct (x ++ y) = replacePunct x ++ replacePunct y.
Proof. apply map_app. Qed.

Lemma replacePunct_nonempty u : u <> [] -> replacePunct u <> [].
Proof. destruct u; [congruence|discriminate]. Qed.

Lemma sameWords_collapse x y :
  sameWords x y ->
  forall b, collapseFrom b (replacePunct x) = collapseFrom b (replacePunct y).
Proof.
  induction 1 as [|c a b' _ IH|u v a b' Nu Nv Wu Wv _ IH]; intro b.
  - reflexivity.
  - cbn [replacePunct List.map collapseFrom]. fold (replacePunct a) (replacePunct b').
    destruct (isSpace (if isWordChar c || isSpace c then c else SP)).
    + destruct b; rewrite IH; reflexivity.
    + rewrite IH. reflexivity.
  - rewrite !replacePunct_app.
    rewrite (collapseFrom_gap _ _ b (replacePunct_nonempty u Nu) (replacePunct_no_word u Wu)).
    rewrite (collapseFrom_gap _ _ b (replacePunct_nonempty v Nv) (replacePunct_no_word v Wv)).
    rewrite IH. reflexivity.
Qed.

Lemma sameWords_normal_form x y :
  sameWords x y ->
  trim (collapseSpaces (replacePunct x)) = trim (collapseSpaces (replacePunct y)).
Proof.
  intro H. unfold collapseSpaces. rewrite (sameWords_collapse x y H false). reflexivity.
Qed.

Lemma sameWords_prefix l a b : sameWords a b -> sameWords (l ++ a) (l ++ b).
Proof.
  intro H. induction l as [|c l IH]; [exact H|].
  simpl. apply sameWords_unit. exact IH.
Qed.

Section CaseTable.

Variable low : unit16 -> jsstring.

Hypothesis low_ascii : forall c, (c < 128)%N -> low c = lowerUnit c.
Hypothesis low_dotted_I : low 304%N = [105%N; 775%N].
Hypothesis low_kelvin : low 8490%N = [107%N].
Hypothesis low_other : forall c,
  (128 <= c)%N -> c <> 304%N -> c <> 8490%N ->
  low c <> [] /\ noWordChar (low c) = true.

Lemma case_table_sameWords s : sameWords (flat_map low s) (toLowerCase s).
Proof.
  unfold toLowerCase. induction s as [|c s IH]; [constructor|].
  cbn [flat_map].
  destruct (N.ltb_spec c 128) as [A|A].
  - rewrite (low_ascii c A). apply sameWords_prefix. exact IH.
  - destruct (N.eq_dec c 304) as [->|N1];
      [rewrite low_dotted_I; apply sameWords_prefix; exact IH|].
    destruct (N.eq_dec c 8490) as [->|N2];
      [rewrite low_kelvin; apply sameWords_prefix; exact IH|].
    destruct (low_other c A N1 N2) as [NE W].
    assert (L : lowerUnit c = [c]).
    { unfold lowerUnit.
      assert (U : isUpperAscii c = false)
        by (unfold isUpperAscii, inRange; apply andb_false_iff; right; apply N.leb_gt; lia).
      apply N.eqb_neq in N1, N2. rewrite U, N1, N2. reflexivity. }
    rewrite L. apply sameWords_gap; try assumption; [discriminate|].
    unfold noWordChar. cbn [forallb]. rewrite andb_true_r. apply negb_true_iff.
    destruct (isWordChar c) eqn:Wc; [|reflexivity].
    exfalso. unfold isWordChar in Wc. class_arith; lia.
Qed.

Lemma normalize_case_table s :
  trim (collapseSpaces (replacePunct (flat_map low s))) = normalize s.
Proof.
  unfold normalize. apply sameWords_normal_form. apply case_table_sameWords.
Qed.

End CaseTable.

(** The table with the capitals of Latin-1 added gives the same normal
    forms. *)
Lemma normalize_latin1 s :
  trim (collapseSpaces (replacePunct (flat_map lowerLatin1 s))) = normalize s.
Proof.
  apply normalize_case_table.
  - intros c H. unfold lowerLatin1.
    assert (R : inRange 192 222 c = false)
      by (unfold inRange; apply andb_false_iff; left; apply N.leb_gt; lia).
    rewrite R. reflexivity.
  - reflexivity.
  - reflexivity.
  - intros c A N1 N2. unfold lowerLatin1.
    destruct (inRange 192 222 c && negb (c =? 215)%N) eqn:R.
    + split; [discriminate|].
      unfold noWordChar. cbn [forallb]. rewrite andb_true_r. apply negb_true_iff.
      destruct (isWordChar (c + 32)%N) eqn:W; [|reflexivity].
      exfalso. unfold isWordChar in W. class_arith; lia.
    + assert (U : isUpperAscii c = false)
        by (unfold isUpperAscii, inRange; apply andb_false_iff; right; apply N.leb_gt; lia).
      unfold lowerUnit. apply N.eqb_neq in N1, N2. rewrite U, N1, N2.
      split; [discriminate|].
      unfold noWordChar. cbn [forallb]. rewrite andb_true_r. apply negb_true_iff.
      destruct (isWordChar c) eqn:W; [|reflexivity].
      exfalso. unfold isWordChar in W. class_arith; lia.
Qed.

(** * Further properties of the code *)

(** ** calculateScore as a maximum *)

Lemma streq_eq a : forall b, streq a b = true <-> a = b.
Proof.
  induction a as [|x a IH]; intros [|y b]; simpl; split; try congruence; try discriminate.
  - intro H. apply andb_true_iff in H. destruct H as [E H].
    apply N.eqb_eq in E. apply IH in H. congruence.
  - intro H. injection H as -> ->. rewrite N.eqb_refl. apply IH. reflexivity.
Qed.

Lemma running_max m s : (if m <? s then s else m) = Nat.max m s.
Proof. destruct (Nat.ltb_spec m s); lia. Qed.

(** One turn of the loop: leave with 100 on an exact match, otherwise
    carry the maximum on. *)
Lemma calculateScoreFrom_step m n k rest :
  calculateScoreFrom m n (k :: rest) =
  if exactMatch n k then 100
  else calculateScoreFrom (Nat.max m (tierScore n k)) n rest.
Proof.
  cbn [calculateScoreFrom]. unfold exactMatch, tierScore.
  destruct (truthy (normalize k)); cbn [negb andb].
  - destruct (streq n (normalize k)); [reflexivity|].
    destruct (regexTestBounded (normalize k) n); [rewrite running_max; reflexivity|].
    destruct (includes n (normalize k)); [rewrite running_max; reflexivity|].
    destruct (1 <? List.length (split SP (normalize k))); cbn [andb].
    + destruct (allFound (split SP (normalize k)) (split SP n));
        [rewrite running_max; reflexivity|].
      rewrite Nat.max_0_r. reflexivity.
    + rewrite Nat.max_0_r. reflexivity.
  - rewrite Nat.max_0_r. reflexivity.
Qed.

Lemma calculateScoreFrom_no_exact n kws : forall m,
  existsb (exactMatch n) kws = false ->
  calculateScoreFrom m n kws = Nat.max m (list_max (List.map (tierScore n) kws)).
Proof.
  induction kws as [|k kws IH]; intros m H.
  - simpl. lia.
  - rewrite calculateScoreFrom_step. simpl in H.
    apply orb_false_iff in H. destruct H as [E H]. rewrite E.
    rewrite (IH _ H). simpl. lia.
Qed.

Lemma calculateScoreFrom_exact n kws : forall m,
  existsb (exactMatch n) kws = true -> calculateScoreFrom m n kws = 100.
Proof.
  induction kws as [|k kws IH]; intros m H; [discriminate|].
  rewrite calculateScoreFrom_step. simpl in H.
  destruct (exactMatch n k); [reflexivity|]. apply IH. exact H.
Qed.

Lemma list_max_Permutation l l' : Permutation l l' -> list_max l = list_max l'.
Proof.
  induction 1 as [|x l l' _ IH|x y l|l l' l'' _ IH1 _ IH2]; simpl; lia.
Qed.

Lemma existsb_Permutation {A : Type} (f : A -> bool) l l' :
  Permutation l l' -> existsb f l = existsb f l'.
Proof.
  induction 1 as [|x l l' _ IH|x y l|l l' l'' _ IH1 _ IH2]; simpl.
  - reflexivity.
  - rewrite IH. reflexivity.
  - destruct (f x), (f y); reflexivity.
  - congruence.
Qed.

(** The loop with its early return computes: 100 when some keyword is
    an exact match of the input, otherwise the largest contribution of a
    single keyword (never a sum). *)
Theorem calculateScore_max_of_tiers (n : jsstring) (kws : list jsstring) :
  calculateScore n kws =
  if existsb (exactMatch n) kws then 100
  else list_max (List.map (tierScore n) kws).
Proof.
  unfold calculateScore. destruct (existsb (exactMatch n) kws) eqn:E.
  - apply calculateScoreFrom_exact. exact E.
  - rewrite (calculateScoreFrom_no_exact n kws 0 E). apply Nat.max_0_l.
Qed.

(** A keyword whose normal form is the (non-empty) input gives the entry
    the score 100, whatever its other keywords are and wherever it stands
    in the list. *)
Theorem calculateScore_exact_match (n k : jsstring) (kws : list jsstring) :
  In k kws -> normalize k = n -> n <> [] -> calculateScore n kws = 100.
Proof.
  intros I E NE. apply calculateScoreFrom_exact.
  apply existsb_exists. exists k. split; [exact I|].
  unfold exactMatch. rewrite E.
  destruct n; [congruence|]. cbn [truthy andb]. apply streq_eq. reflexivity.
Qed.

Lemma calculateScore_exact_match_witness :
  calculateScore (lit "pricing") [lit "cost of the plan"; lit "Pricing?"; lit "price"] = 100.
Proof.
  apply (calculateScore_exact_match (lit "pricing") (lit "Pricing?")).
  - right. left. reflexivity.
  - vm_compute. reflexivity.
  - discriminate.
Defined.

(** The score of an entry does not depend on the order of its keywords. *)
Theorem calculateScore_keyword_order (n : jsstring) (kws kws' : list jsstring) :
  Permutation kws kws' -> calculateScore n kws = calculateScore n kws'.
Proof.
  intro P. unfold calculateScore.
  pose proof (existsb_Permutation (exactMatch n) kws kws' P) as E.
  destruct (existsb (exactMatch n) kws) eqn:X.
  - rewrite (calculateScoreFrom_exact n kws 0 X).
    symmetry. apply calculateScoreFrom_exact. congruence.
  - rewrite (calculateScoreFrom_no_exact n kws 0 X).
    rewrite (calculateScoreFrom_no_exact n kws' 0) by congruence.
    f_equal. apply list_max_Permutation. apply Permutation_map. exact P.
Qed.

Lemma calculateScore_keyword_order_witness :
  calculateScore (lit "hi there") [lit "hello"; lit "hi"]
  = calculateScore (lit "hi there") [lit "hi"; lit "hello"].
Proof.
  apply (calculateScore_keyword_order (lit "hi there")). apply perm_swap.
Defined.

(** Keywords whose normal form is empty (punctuation only, say) are dead:
    an entry that has no other keyword scores 0 against every input. *)
Theorem calculateScore_dead_keywords (n : jsstring) (kws : list jsstring) :
  (forall k, In k kws -> normalize k = []) -> calculateScore n kws = 0.
Proof.
  intro H. unfold calculateScore.
  assert (Z : forall m, calculateScoreFrom m n kws = m).
  { induction kws as [|k kws IH]; intro m; [reflexivity|].
    cbn [calculateScoreFrom]. rewrite (H k) by (left; reflexivity).
    cbn [truthy negb]. apply IH. intros k' Hk'. apply H. right. exact Hk'. }
  apply Z.
Qed.

Lemma calculateScore_dead_keywords_witness :
  calculateScore (lit "what") [lit "?!"; lit " ... "] = 0.
Proof.
  apply (calculateScore_dead_keywords (lit "what")).
  intros k [<-|[<-|[]]]; vm_compute; reflexivity.
Defined.

(** ** Which inputs have which normal form *)

Lemma dropWhile_keeps (p : unit16 -> bool) s c :
  In c s -> p c = false -> In c (dropWhile p s).
Proof.
  induction s as [|x s IH]; intros I H; [destruct I|].
  simpl. destruct (p x) eqn:P.
  - destruct I as [->|I]; [congruence|]. apply IH; assumption.
  - exact I.
Qed.

Lemma trim_keeps s c : In c s -> isSpace c = false -> In c (trim s).
Proof.
  intros I H. unfold trim, trimEnd, trimStart.
  apply in_rev. rewrite rev_involutive.
  apply dropWhile_keeps; [|exact H].
  apply -> in_rev. apply dropWhile_keeps; assumption.
Qed.

Lemma collapseFrom_keeps s : forall b c,
  In c s -> isSpace c = false -> In c (collapseFrom b s).
Proof.
  induction s as [|x s IH]; intros b c I H; [destruct I|].
  simpl. destruct I as [->|I].
  - rewrite H. left. reflexivity.
  - destruct (isSpace x).
    + destruct b; [|right]; apply IH; assumption.
    + right. apply IH; assumption.
Qed.

Lemma replacePunct_keeps s c : In c s -> isWordChar c = true -> In c (replacePunct s).
Proof.
  intros I W. unfold replacePunct. apply in_map_iff.
  exists c. rewrite W. split; [reflexivity|exact I].
Qed.

Lemma word_not_space c : isWordChar c = true -> isSpace c = false.
Proof.
  intro W. destruct (isSpace c) eqn:S; [|reflexivity].
  apply space_not_word in S. congruence.
Qed.

(** The inputs [findBestResponse] gives up on at once are exactly those
    whose lower-case form has no ASCII word character. *)
Theorem normalize_empty_iff (s : jsstring) :
  normalize s = [] <-> noWordChar (toLowerCase s) = true.
Proof.
  split; [|apply normalize_no_word].
  intro E. unfold noWordChar. apply forallb_forall. intros c I.
  destruct (isWordChar c) eqn:W; [|reflexivity].
  exfalso. pose proof (word_not_space c W) as S.
  assert (J : In c (normalize s)).
  { unfold normalize, collapseSpaces. apply trim_keeps; [|exact S].
    apply collapseFrom_keeps; [|exact S]. apply replacePunct_keeps; assumption. }
  rewrite E in J. destruct J.
Qed.

Lemma trimEnd_last s c t : rev (trimEnd s) = c :: t -> isSpace c = false.
Proof.
  unfold trimEnd. rewrite rev_involutive. apply dropWhile_head.
Qed.

Lemma dropWhile_skip (p : unit16 -> bool) a b :
  forallb p a = true -> dropWhile p (a ++ b) = dropWhile p b.
Proof.
  induction a as [|x a IH]; [reflexivity|].
  simpl. intro H. apply andb_true_iff in H. destruct H as [P H].
  rewrite P. apply IH. exact H.
Qed.

Lemma trimEnd_fix s : hd_error (rev s) <> Some SP ->
  (forall c, In c s -> isSpace c = true -> c = SP) -> trimEnd s = s.
Proof.
  intros H C. unfold trimEnd.
  destruct (rev s) as [|c t] eqn:R.
  - simpl. apply (f_equal (@rev unit16)) in R. rewrite rev_involutive in R. simpl in R.
    congruence.
  - assert (S : isSpace c = false).
    { destruct (isSpace c) eqn:S; [|reflexivity].
      exfalso. apply H. simpl. f_equal. apply C; [|exact S].
      apply in_rev. rewrite R. left. reflexivity. }
    rewrite (dropWhile_fix isSpace c t S). rewrite <- R. apply rev_involutive.
Qed.

Lemma tidy_of_plain s : forall b,
  (forall c, In c s -> isSpace c = true -> c = SP) ->
  (forall i, nth_error s i = Some SP -> nth_error s (S i) <> Some SP) ->
  (b = true -> hd_error s <> Some SP) ->
  tidy b s = true.
Proof.
  induction s as [|c s IH]; intros b C D H; [reflexivity|].
  cbn [tidy]. destruct (isSpace c) eqn:Sc.
  - assert (E : c = SP) by (apply C; [left; reflexivity|exact Sc]). subst c.
    rewrite N.eqb_refl. cbn [andb].
    assert (B : b = false) by (destruct b; [exfalso; apply H; reflexivity|reflexivity]).
    rewrite B. cbn [negb andb]. apply IH.
    + intros c I. apply C. right. exact I.
    + intros i. apply (D (S i)).
    + intros _ E. destruct s as [|d s]; [discriminate|].
      simpl in E. injection E as ->. apply (D 0); reflexivity.
  - apply IH.
    + intros d I. apply C. right. exact I.
    + intros i. apply (D (S i)).
    + discriminate.
Qed.

(** The normal forms are exactly the texts over [[a-z0-9_ ]] that neither
    start nor end with a space and have no two spaces in a row: on those
    [normalize] changes nothing, and every result of [normalize] is one. *)
Theorem normalize_fixed_points (s : jsstring) :
  normalize s = s <->
  forallb isNormChar s = true
  /\ (forall i, nth_error s i = Some SP -> nth_error s (S i) <> Some SP)
  /\ hd_error s <> Some SP
  /\ hd_error (rev s) <> Some SP.
Proof.
  split.
  - intro E. split; [|split; [|split]].
    + rewrite <- E. apply forallb_forall. apply normalize_charset.
    + rewrite <- E. intro i. apply (tidy_no_double_space _ false). apply normalize_tidy.
    + destruct s as [|c t]; [discriminate|].
      unfold normalize in E. apply trim_head in E.
      simpl. intro H. injection H as ->. rewrite SP_isSpace in E. discriminate.
    + destruct (rev s) as [|c t] eqn:R; [discriminate|].
      rewrite <- E in R. unfold normalize, trim in R. apply trimEnd_last in R.
      simpl. intro H. injection H as ->. rewrite SP_isSpace in R. discriminate.
  - intros (C & D & H & L).
    assert (C' : forall c, In c s -> isNormChar c = true)
      by (apply forallb_forall; exact C).
    assert (Sp : forall c, In c s -> isSpace c = true -> c = SP).
    { intros c I S. destruct (normChar_cases c (C' c I)) as [(_ & N & _)|E];
        [congruence|exact E]. }
    unfold normalize. rewrite (toLowerCase_norm s C').
    rewrite replacePunct_fix.
    + unfold collapseSpaces.
      rewrite collapseFrom_fix by (apply tidy_of_plain; [exact Sp|exact D|discriminate]).
      unfold trim, trimStart.
      assert (T : dropWhile isSpace s = s).
      { destruct s as [|c t]; [reflexivity|]. apply dropWhile_fix.
        destruct (isSpace c) eqn:S; [|reflexivity].
        exfalso. apply H. simpl. f_equal. apply Sp; [left; reflexivity|exact S]. }
      rewrite T. apply trimEnd_fix; assumption.
    + intros c I. destruct (normChar_cases c (C' c I)) as [(W & _)| ->].
      * rewrite W. reflexivity.
      * reflexivity.
Qed.

(** ** What the answer does not depend on *)

Lemma lowerUnit_upperAscii c :
  lowerUnit (if isLowerAscii c then (c - 32)%N else c) = lowerUnit c.
Proof.
  destruct (isLowerAscii c) eqn:L; [|reflexivity].
  assert (R : (97 <= c <= 122)%N) by (class_arith; lia).
  unfold lowerUnit.
  assert (U : isUpperAscii (c - 32)%N = true)
    by (unfold isUpperAscii, inRange; apply andb_true_iff; split; apply N.leb_le; lia).
  assert (V : isUpperAscii c = false)
    by (unfold isUpperAscii, inRange; apply andb_false_iff; right; apply N.leb_gt; lia).
  assert (E1 : (c =? 304)%N = false) by (apply N.eqb_neq; lia).
  assert (E2 : (c =? 8490)%N = false) by (apply N.eqb_neq; lia).
  rewrite U, V, E1, E2. f_equal. lia.
Qed.

Lemma normalize_upperAscii s : normalize (upperAscii s) = normalize s.
Proof.
  unfold normalize. f_equal. f_equal. f_equal.
  unfold toLowerCase, upperAscii. induction s as [|c s IH]; [reflexivity|].
  cbn [List.map flat_map]. rewrite lowerUnit_upperAscii, IH. reflexivity.
Qed.

Lemma toLowerCase_app a b : toLowerCase (a ++ b) = toLowerCase a ++ toLowerCase b.
Proof. apply flat_map_app. Qed.

(** After a run of white space, [collapseFrom] forgets what state it was
    entered in. *)
Lemma collapseFrom_app_spaces x w : forall b,
  forallb isSpace w = true ->
  exists w', collapseFrom b (x ++ w) = collapseFrom b x ++ w'
             /\ forallb isSpace w' = true.
Proof.
  induction x as [|c x IH]; intros b H.
  - exists (collapseFrom b w). split; [reflexivity|].
    apply forallb_forall. intros d I. apply collapseFrom_in in I.
    destruct I as [->|[I S]]; [reflexivity|].
    rewrite forallb_forall in H. rewrite (H d I) in S. discriminate.
  - simpl. destruct (isSpace c).
    + destruct b.
      * apply IH. exact H.
      * destruct (IH true H) as (w' & E & A). exists w'. rewrite E. split; [reflexivity|exact A].
    + destruct (IH false H) as (w' & E & A). exists w'. rewrite E. split; [reflexivity|exact A].
Qed.

Lemma trimEnd_app_spaces y w : forallb isSpace w = true -> trimEnd (y ++ w) = trimEnd y.
Proof.
  intro H. unfold trimEnd. rewrite rev_app_distr. rewrite dropWhile_skip; [reflexivity|].
  apply forallb_forall. intros c I. apply in_rev in I.
  rewrite forallb_forall in H. apply H. exact I.
Qed.

Lemma trimStart_app y w :
  forallb isSpace y = false -> trimStart (y ++ w) = trimStart y ++ w.
Proof.
  unfold trimStart. induction y as [|c y IH]; [discriminate|].
  simpl. destruct (isSpace c); [exact IH|reflexivity].
Qed.

Lemma trim_app_spaces y w : forallb isSpace w = true -> trim (y ++ w) = trim y.
Proof.
  intro H. destruct (forallb isSpace y) eqn:Y.
  - rewrite (trim_all_space y Y). apply trim_all_space.
    rewrite forallb_app, Y, H. reflexivity.
  - unfold trim. rewrite (trimStart_app y w Y). apply trimEnd_app_spaces. exact H.
Qed.

Lemma trimStart_collapse x : forall b,
  trimStart (collapseFrom b x) = trimStart (collapseFrom true x).
Proof.
  intros [|]; [reflexivity|].
  destruct x as [|c x]; [reflexivity|].
  simpl. destruct (isSpace c) eqn:S; [|reflexivity].
  unfold trimStart. simpl. reflexivity.
Qed.

Lemma normalize_app_blank_r q t :
  noWordChar (toLowerCase t) = true -> normalize (q ++ t) = normalize q.
Proof.
  intro H. unfold normalize, collapseSpaces.
  rewrite toLowerCase_app, replacePunct_app.
  destruct (collapseFrom_app_spaces (replacePunct (toLowerCase q))
              (replacePunct (toLowerCase t)) false (replacePunct_no_word _ H))
    as (w' & E & A).
  rewrite E. apply trim_app_spaces. exact A.
Qed.

Lemma normalize_app_blank_l q t :
  noWordChar (toLowerCase t) = true -> normalize (t ++ q) = normalize q.
Proof.
  intro H. unfold normalize, collapseSpaces.
  rewrite toLowerCase_app, replacePunct_app.
  destruct (toLowerCase t) as [|c l] eqn:T; [reflexivity|].
  rewrite (collapseFrom_gap (replacePunct (c :: l)) _ false);
    [|discriminate|apply replacePunct_no_word; exact H].
  unfold trim. f_equal.
  change ([SP] ++ collapseFrom true (replacePunct (toLowerCase q)))
    with (SP :: collapseFrom true (replacePunct (toLowerCase q))).
  unfold trimStart at 1. cbn [dropWhile]. rewrite SP_isSpace.
  symmetry. apply trimStart_collapse.
Qed.

Lemma findBestResponse_normal_form q q' K :
  normalize q = normalize q' -> findBestResponse q K = findBestResponse q' K.
Proof. intro E. unfold findBestResponse. rewrite E. reflexivity. Qed.

(** A text without ASCII word characters keeps none when it is
    lower-cased, unless it holds U+0130 or U+212A. *)
Lemma noWordChar_toLowerCase t :
  noWordChar t = true -> noAsciiLowering t = true -> noWordChar (toLowerCase t) = true.
Proof.
  unfold noWordChar, noAsciiLowering, toLowerCase.
  induction t as [|c t IH]; [reflexivity|].
  cbn [forallb flat_map]. intros W A.
  apply andb_true_iff in W. destruct W as [Wc W].
  apply andb_true_iff in A. destruct A as [Ac A].
  apply andb_true_iff in Ac. destruct Ac as [A1 A2].
  apply negb_true_iff in A1, A2.
  rewrite forallb_app, (IH W A), andb_true_r.
  assert (U : isUpperAscii c = false).
  { destruct (isUpperAscii c) eqn:U; [|reflexivity].
    apply negb_true_iff in Wc. unfold isWordChar in Wc. rewrite U in Wc.
    rewrite orb_true_r in Wc. discriminate. }
  unfold lowerUnit. rewrite U, A1, A2.
  cbn [forallb]. rewrite Wc. reflexivity.
Qed.

(** The local answer is the same for an input, for its normal form, for
    the input with its ASCII letters in capitals, and for the input with a
    text added in front or behind whose lower-case form has no ASCII word
    character.  Punctuation and white space are such texts, and so is
    every text without ASCII word characters that holds neither U+0130 nor
    the Kelvin sign U+212A (whose lower cases have the letters [i] and
    [k]). *)
Theorem findBestResponse_input_invariance (q t : jsstring) (K : list KnowledgeEntry) :
  findBestResponse (normalize q) K = findBestResponse q K
  /\ findBestResponse (upperAscii q) K = findBestResponse q K
  /\ (noWordChar (toLowerCase t) = true ->
      findBestResponse (q ++ t) K = findBestResponse q K
      /\ findBestResponse (t ++ q) K = findBestResponse q K)
  /\ (noWordChar t = true -> noAsciiLowering t = true ->
      noWordChar (toLowerCase t) = true).
Proof.
  split; [|split; [|split]].
  - apply findBestResponse_normal_form. apply normalize_idempotent.
  - apply findBestResponse_normal_form. apply normalize_upperAscii.
  - intro H. split; apply findBestResponse_normal_form.
    + apply normalize_app_blank_r. exact H.
    + apply normalize_app_blank_l. exact H.
  - apply noWordChar_toLowerCase.
Qed.

Lemma findBestResponse_input_invariance_witness :
  noWordChar (lit "?!") = true
  /\ noAsciiLowering (lit "?!") = true
  /\ findBestResponse (lit "hi" ++ lit "?!") welcomeKB = findBestResponse (lit "hi") welcomeKB
  /\ findBestResponse (lit "?!" ++ lit "hi") welcomeKB = findBestResponse (lit "hi") welcomeKB.
Proof.
  split; [reflexivity|]. split; [reflexivity|].
  destruct (findBestResponse_input_invariance (lit "hi") (lit "?!") welcomeKB)
    as (_ & _ & H & L).
  apply H. apply L; reflexivity.
Defined.

(** The Kelvin sign shows why the condition is on the lower-case form: it
    is no ASCII word character, yet behind [hi] it makes the input [hik],
    which an entry answers that does not answer [hi]. *)
Example findBestResponse_kelvin_behind :
  noWordChar kelvin = true
  /\ noWordChar (toLowerCase kelvin) = false
  /\ findBestResponse (lit "hi") hikeKB = None
  /\ findBestResponse (lit "hi" ++ kelvin) hikeKB = Some (lit "Hik is Dutch for hiccup.").
Proof. repeat split; vm_compute; reflexivity. Qed.

(** ** What findBestResponse can return *)

Lemma positive_entry_dec q K :
  (exists e, In e K /\ 0 < entryScore q e) \/ (forall e, In e K -> entryScore q e = 0).
Proof.
  destruct (existsb (fun e => 0 <? entryScore q e) K) eqn:X.
  - left. apply existsb_exists in X. destruct X as (e & He & L).
    apply Nat.ltb_lt in L. eauto.
  - right. intros e He. destruct (entryScore q e) eqn:S; [reflexivity|].
    assert (Y : existsb (fun e => 0 <? entryScore q e) K = true).
    { apply existsb_exists. exists e. split; [exact He|]. rewrite S. reflexivity. }
    congruence.
Qed.

(** For every input, empty normal form or not: the answer is [null]
    exactly when no entry has a positive score, and an answer that is not
    [null] is the response of the first entry with the highest score; the
    matcher never returns a text that is not the response of an entry that
    scored. *)
Theorem findBestResponse_sound (q : jsstring) (K : list KnowledgeEntry) :
  (findBestResponse q K = None <-> (forall e, In e K -> entryScore q e = 0))
  /\ (forall r, findBestResponse q K = Some r ->
        exists i e, firstBest q K i e /\ r = response e).
Proof.
  split; [apply findBestResponse_none_iff|].
  intros r H.
  destruct (normalize q) as [|c t] eqn:E.
  - rewrite findBestResponse_normalize_nil in H by exact E. discriminate.
  - assert (NE : normalize q <> []) by (rewrite E; discriminate).
    destruct (positive_entry_dec q K) as [P|Z].
    + destruct (firstBest_exists q K P) as (i & e & F).
      rewrite (findBestResponse_of_firstBest q K i e NE F) in H.
      injection H as <-. eauto.
    + rewrite (findBestResponse_all_zero q K Z) in H. discriminate.
Qed.

Lemma scanEntries_app n K1 : forall K2 bs br,
  scanEntries n bs br (K1 ++ K2) =
  scanEntries n (fst (scanEntries n bs br K1)) (snd (scanEntries n bs br K1)) K2.
Proof.
  induction K1 as [|e K1 IH]; intros K2 bs br; [reflexivity|].
  simpl. destruct (bs <? calculateScore n (keywords e)); apply IH.
Qed.

Lemma scanEntries_best n K : forall bs br e,
  In e K -> keywordScore n e <= fst (scanEntries n bs br K).
Proof.
  induction K as [|e0 K IH]; intros bs br e I; [destruct I|].
  simpl. fold (keywordScore n e0).
  assert (M : forall b r, b <= fst (scanEntries n b r K)).
  { clear. induction K as [|x K IH]; intros b r; [simpl; lia|].
    simpl. destruct (Nat.ltb_spec b (calculateScore n (keywords x))).
    - specialize (IH (calculateScore n (keywords x)) (Some (response x))). lia.
    - apply IH. }
  destruct I as [->|I].
  - destruct (Nat.ltb_spec bs (keywordScore n e)).
    + apply M.
    + specialize (M bs br). lia.
  - destruct (bs <? keywordScore n e0); apply IH; exact I.
Qed.

(** Once some entry beats both starting points, the scan ends the same
    from either. *)
Lemma scanEntries_beaten n K b r b' r' e0 :
  In e0 K -> b < keywordScore n e0 -> b' < keywordScore n e0 ->
  scanEntries n b r K = scanEntries n b' r' K.
Proof.
  intros I L L'.
  destruct (first_max_exists n K) as (i & e1 & N & P & M & F).
  { exists e0. split; [exact I|lia]. }
  pose proof (M e0 I) as B.
  rewrite (scanEntries_first_max n K i e1 b r N) by (assumption || lia).
  rewrite (scanEntries_first_max n K i e1 b' r' N) by (assumption || lia).
  reflexivity.
Qed.

(** An entry that does not win does not disturb the answer: if it scores
    0, or no more than some entry before it, or less than some entry after
    it, the answer is the same with the entry and without it (so deleting
    or adding such an entry changes nothing for that input). *)
Theorem findBestResponse_losing_entry (q : jsstring) (K1 K2 : list KnowledgeEntry)
    (e : KnowledgeEntry) :
  entryScore q e = 0
  \/ (exists e0, In e0 K1 /\ entryScore q e <= entryScore q e0)
  \/ (exists e0, In e0 K2 /\ entryScore q e < entryScore q e0) ->
  findBestResponse q (K1 ++ e :: K2) = findBestResponse q (K1 ++ K2).
Proof.
  intro H. unfold findBestResponse.
  destruct (negb (truthy (normalize q))); [reflexivity|].
  rewrite !scanEntries_app.
  set (b1 := fst (scanEntries (normalize q) 0 None K1)).
  set (r1 := snd (scanEntries (normalize q) 0 None K1)).
  cbn [scanEntries]. fold (keywordScore (normalize q) e). fold (entryScore q e).
  destruct (Nat.ltb_spec b1 (entryScore q e)) as [L|L]; [|reflexivity].
  destruct H as [Z|[(e0 & I & B)|(e0 & I & B)]].
  - lia.
  - pose proof (scanEntries_best (normalize q) K1 0 None e0 I) as M.
    fold b1 in M. unfold entryScore in *. lia.
  - rewrite (scanEntries_beaten (normalize q) K2 (entryScore q e) (Some (response e))
               b1 r1 e0 I).
    + reflexivity.
    + exact B.
    + unfold entryScore in *. lia.
Qed.

Lemma findBestResponse_losing_entry_witness :
  findBestResponse (lit "hi there")
    ([mkEntry "Welcome" ["hello"; "hi"]%string "Hello! I am Aarya AI."]
       ++ mkEntry "Greeting" ["hi"]%string "Hi again." :: [])
  = findBestResponse (lit "hi there")
      ([mkEntry "Welcome" ["hello"; "hi"]%string "Hello! I am Aarya AI."] ++ []).
Proof.
  apply findBestResponse_losing_entry.
  right. left.
  exists (mkEntry "Welcome" ["hello"; "hi"]%string "Hello! I am Aarya AI.").
  split; [left; reflexivity|vm_compute; lia].
Defined.

(** ** The word-boundary tier in plain terms *)

Lemma canonicalize_norm_inj a b :
  isNormChar a = true -> isNormChar b = true ->
  canonicalize a = canonicalize b -> a = b.
Proof.
  unfold canonicalize, isNormChar. intros A B.
  destruct (isLowerAscii a) eqn:La, (isLowerAscii b) eqn:Lb; cbn [orb] in A, B; intro E.
  - class_arith; lia.
  - exfalso. subst b. class_arith; lia.
  - exfalso. subst a. class_arith; lia.
  - exact E.
Qed.

Lemma lastOr_app prev a b : lastOr prev (a ++ b) = lastOr (lastOr prev a) b.
Proof. apply fold_left_app. Qed.

(** On normalized operands the case-insensitive literal match is the
    plain prefix test. *)
Lemma matchLiteral_norm kw : forall s prev,
  forallb isNormChar kw = true -> forallb isNormChar s = true ->
  matchLiteral kw s prev =
  if startsWith kw s then Some (lastOr prev kw, skipn (List.length kw) s) else None.
Proof.
  induction kw as [|p kw IH]; intros s prev K S; [reflexivity|].
  destruct s as [|c s]; [reflexivity|].
  simpl in K, S. apply andb_true_iff in K, S. destruct K as [Kp K], S as [Sc S].
  cbn [matchLiteral startsWith].
  destruct (N.eqb_spec p c) as [->|NE].
  - rewrite N.eqb_refl. cbn [andb]. rewrite (IH s (Some c) K S). reflexivity.
  - destruct (N.eqb_spec (canonicalize p) (canonicalize c)) as [E|_]; [|reflexivity].
    exfalso. apply NE. apply canonicalize_norm_inj; assumption.
Qed.

Lemma searchBounded_unfold kw prev s :
  searchBounded kw prev s =
  matchBoundedAt kw prev s
  || match s with [] => false | c :: s' => searchBounded kw (Some c) s' end.
Proof. destruct s; reflexivity. Qed.

Lemma searchBounded_split kw s : forall prev,
  searchBounded kw prev s = true <->
  exists a rest, s = a ++ rest /\ matchBoundedAt kw (lastOr prev a) rest = true.
Proof.
  induction s as [|c s IH]; intro prev; rewrite searchBounded_unfold.
  - rewrite orb_false_r. split.
    + intro H. exists [], []. split; [reflexivity|exact H].
    + intros (a & rest & E & H). symmetry in E. apply app_eq_nil in E.
      destruct E as [-> ->]. exact H.
  - split.
    + intro H. apply orb_true_iff in H. destruct H as [H|H].
      * exists [], (c :: s). split; [reflexivity|exact H].
      * apply IH in H. destruct H as (a & rest & E & H).
        exists (c :: a), rest. split; [simpl; congruence|exact H].
    + intros (a & rest & E & H). apply orb_true_iff.
      destruct a as [|x a].
      * left. simpl in E. subst rest. exact H.
      * right. simpl in E. injection E as <- E. apply IH.
        exists a, rest. split; [exact E|exact H].
Qed.

Lemma forallb_app_l {A : Type} (f : A -> bool) a b :
  forallb f (a ++ b) = true -> forallb f a = true.
Proof. rewrite forallb_app. intro H. apply andb_true_iff in H. apply H. Qed.

Lemma forallb_app_r {A : Type} (f : A -> bool) a b :
  forallb f (a ++ b) = true -> forallb f b = true.
Proof. rewrite forallb_app. intro H. apply andb_true_iff in H. apply H. Qed.

Lemma skipn_prefix {A : Type} (p b : list A) : skipn (List.length p) (p ++ b) = b.
Proof. induction p as [|x p IH]; [reflexivity|exact IH]. Qed.

(** A normalized keyword that is not empty starts and ends with a word
    character. *)
Lemma normalize_ends_word k c t :
  normalize k = c :: t ->
  isWordChar c = true /\ wordAt (lastOr None (c :: t)) = true.
Proof.
  intro E.
  assert (W : forall d, In d (normalize k) -> isSpace d = false -> isWordChar d = true).
  { intros d I S. destruct (normChar_cases d (normalize_charset k d I)) as [(W & _)| ->].
    - exact W.
    - rewrite SP_isSpace in S. discriminate. }
  split.
  - apply W; [rewrite E; left; reflexivity|].
    unfold normalize in E. apply trim_head in E. exact E.
  - rewrite <- E.
    destruct (rev (normalize k)) as [|d u] eqn:R.
    + apply (f_equal (@rev unit16)) in R. rewrite rev_involutive, E in R. discriminate.
    + assert (N : normalize k = rev u ++ [d]).
      { rewrite <- (rev_involutive (normalize k)), R. reflexivity. }
      rewrite N at 1. rewrite lastOr_app. cbn [lastOr fold_left wordAt].
      apply W.
      * apply in_rev. rewrite R. left. reflexivity.
      * unfold normalize, trim in R. apply trimEnd_last in R. exact R.
Qed.

Lemma regexTestBounded_whole_words_aux (q k : jsstring) :
  normalize k <> [] ->
  (regexTestBounded (normalize k) (normalize q) = true <->
   exists a b, normalize q = a ++ normalize k ++ b
     /\ wordAt (lastOr None a) = false
     /\ wordAt (hd_error b) = false).
Proof.
  intro NE.
  destruct (normalize k) as [|c t] eqn:E; [congruence|].
  destruct (normalize_ends_word k c t E) as [Wc Wl].
  assert (Nk : forallb isNormChar (c :: t) = true)
    by (rewrite <- E; apply forallb_forall; apply normalize_charset).
  assert (Nq : forallb isNormChar (normalize q) = true)
    by (apply forallb_forall; apply normalize_charset).
  unfold regexTestBounded. rewrite searchBounded_split.
  split.
  - intros (a & rest & S & M). unfold matchBoundedAt in M.
    apply andb_true_iff in M. destruct M as [B1 M].
    rewrite S in Nq.
    rewrite (matchLiteral_norm (c :: t) rest (lastOr None a) Nk (forallb_app_r _ _ _ Nq)) in M.
    destruct (startsWith (c :: t) rest) eqn:P; [|discriminate].
    apply startsWith_app in P. set (b := skipn (List.length (c :: t)) rest) in *.
    exists a, b. split; [rewrite S, P at 1; reflexivity|].
    rewrite P in B1. cbn [app hd_error] in B1.
    unfold boundary in B1, M. cbn [wordAt] in B1. rewrite Wc in B1.
    change (lastOr (lastOr None a) (c :: t)) with (lastOr (Some c) t) in M.
    change (lastOr None (c :: t)) with (lastOr (Some c) t) in Wl.
    rewrite Wl in M.
    split.
    + destruct (wordAt (lastOr None a)); [discriminate|reflexivity].
    + destruct (wordAt (hd_error b)); [discriminate|reflexivity].
  - intros (a & b & S & Ba & Bb).
    exists a, ((c :: t) ++ b). split; [exact S|].
    unfold matchBoundedAt. rewrite S in Nq.
    rewrite (matchLiteral_norm (c :: t) ((c :: t) ++ b) (lastOr None a) Nk
               (forallb_app_r _ _ _ Nq)).
    rewrite startsWith_prefix, skipn_prefix.
    unfold boundary. cbn [app hd_error wordAt]. rewrite Wc, Ba, Bb.
    change (lastOr (lastOr None a) (c :: t)) with (lastOr (Some c) t).
    change (lastOr None (c :: t)) with (lastOr (Some c) t) in Wl.
    rewrite Wl. reflexivity.
Qed.

Lemma not_word_norm c : isNormChar c = true -> isWordChar c = false -> c = SP.
Proof.
  intros N W. destruct (normChar_cases c N) as [(W' & _)|E]; [congruence|exact E].
Qed.

Lemma wordAt_hd_norm b :
  (forall c, In c b -> isNormChar c = true) ->
  (wordAt (hd_error b) = false <-> b = [] \/ exists b', b = SP :: b').
Proof.
  intro N. destruct b as [|c b]; cbn [hd_error wordAt].
  - split; [left; reflexivity|reflexivity].
  - split.
    + intro W. right. exists b. f_equal.
      apply not_word_norm; [apply N; left; reflexivity|exact W].
    + intros [H|(b' & H)]; [discriminate|]. injection H as -> _. reflexivity.
Qed.

Lemma wordAt_last_norm a :
  (forall c, In c a -> isNormChar c = true) ->
  (wordAt (lastOr None a) = false <-> a = [] \/ exists a', a = a' ++ [SP]).
Proof.
  intro N. destruct a as [|x a0] eqn:A.
  - split; [left; reflexivity|reflexivity].
  - rewrite <- A in *.
    assert (NE : a <> []) by (rewrite A; discriminate).
    destruct (exists_last NE) as (a' & c & E).
    rewrite E, lastOr_app. cbn [lastOr fold_left wordAt]. split.
    + intro W. right. exists a'. f_equal. f_equal.
      apply not_word_norm; [|exact W].
      apply N. rewrite E. apply in_or_app. right. left. reflexivity.
    + intros [H|(a2 & H)].
      * destruct a'; discriminate.
      * apply app_inj_tail in H. destruct H as [_ ->]. reflexivity.
Qed.

(** The word-boundary tier fires exactly when the normalized keyword
    occurs in the normalized input as whole words: the occurrence starts
    the input or comes right after a space, and it ends the input or is
    followed by a space. *)
Theorem regexTestBounded_whole_words (q k : jsstring) :
  normalize k <> [] ->
  (regexTestBounded (normalize k) (normalize q) = true <->
   exists a b, normalize q = a ++ normalize k ++ b
     /\ (a = [] \/ exists a', a = a' ++ [SP])
     /\ (b = [] \/ exists b', b = SP :: b')).
Proof.
  intro NE. rewrite (regexTestBounded_whole_words_aux q k NE).
  assert (N : forall a b, normalize q = a ++ normalize k ++ b ->
              (forall c, In c a -> isNormChar c = true)
              /\ (forall c, In c b -> isNormChar c = true)).
  { intros a b E. split; intros c I; apply (normalize_charset q); rewrite E.
    - apply in_or_app. left. exact I.
    - apply in_or_app. right. apply in_or_app. right. exact I. }
  split; intros (a & b & E & Pa & Pb); exists a, b; destruct (N a b E) as [Na Nb];
    (split; [exact E|]); split.
  - apply (wordAt_last_norm a Na). exact Pa.
  - apply (wordAt_hd_norm b Nb). exact Pb.
  - apply (wordAt_last_norm a Na). exact Pa.
  - apply (wordAt_hd_norm b Nb). exact Pb.
Qed.

Lemma regexTestBounded_whole_words_witness :
  regexTestBounded (normalize (lit "Hi")) (normalize (lit "oh hi, there")) = true.
Proof.
  apply (regexTestBounded_whole_words (lit "oh hi, there") (lit "Hi")).
  - vm_compute. discriminate.
  - exists (lit "oh "), (lit " there"). split; [vm_compute; reflexivity|]. split.
    + right. exists (lit "oh"). reflexivity.
    + right. exists (lit "there"). reflexivity.
Defined.

(** [includes] is the substring test: it holds exactly when the pattern
    occurs somewhere in the text. *)
Lemma includes_iff s p : includes s p = true <-> exists a b, s = a ++ p ++ b.
Proof.
  split.
  - intro H. destruct (replace_first_occurrence p s H) as (a & b & E & _). eauto.
  - intros (a & b & ->). induction a as [|x a IH].
    + rewrite includes_unfold. simpl. rewrite startsWith_prefix. reflexivity.
    + rewrite includes_unfold. simpl app. cbn [includes]. rewrite IH. apply orb_true_r.
Qed.

(** The tiers are nested: on normalized operands a whole-word occurrence
    is a substring occurrence, so only the order of the tests gives it
    20 + length rather than 10 + length; and every keyword that occurs in
    the input at all contributes at least 10 + its length. *)
Theorem tierScore_nested (q k : jsstring) :
  normalize k <> [] ->
  (regexTestBounded (normalize k) (normalize q) = true ->
     includes (normalize q) (normalize k) = true
     /\ tierScore (normalize q) k = 20 + List.length (normalize k))
  /\ (includes (normalize q) (normalize k) = true ->
     10 + List.length (normalize k) <= tierScore (normalize q) k).
Proof.
  intro NE.
  assert (T : negb (truthy (normalize k)) = false)
    by (destruct (normalize k); [congruence|reflexivity]).
  split.
  - intro R. split.
    + apply (regexTestBounded_whole_words_aux q k NE) in R.
      destruct R as (a & b & S & _). apply includes_iff. eauto.
    + unfold tierScore. cbv zeta. rewrite T, R. reflexivity.
  - intro I. unfold tierScore. cbv zeta. rewrite T, I.
    destruct (regexTestBounded (normalize k) (normalize q)); lia.
Qed.

Lemma tierScore_nested_witness :
  includes (normalize (lit "what is the pricing?")) (normalize (lit "Pricing")) = true
  /\ tierScore (normalize (lit "what is the pricing?")) (lit "Pricing")
     = 20 + List.length (normalize (lit "Pricing")).
Proof.
  apply (proj1 (tierScore_nested (lit "what is the pricing?") (lit "Pricing")
                  ltac:(vm_compute; discriminate))).
  vm_compute. reflexivity.
Defined.

(** ** Replies of the two calls to the service *)

Lemma getEnvKey_truthy e k : Gemini.getEnvKey e = Some k -> truthy k = true.
Proof.
  unfold Gemini.getEnvKey.
  destruct (Gemini.VITE_API_KEY e) as [v|] eqn:V; cbn [Gemini.definedTruthy].
  - destruct (truthy v) eqn:T.
    + intro H. injection H as <-. exact T.
    + destruct (Gemini.API_KEY e) as [a|]; cbn [Gemini.definedTruthy]; [|discriminate].
      destruct (truthy a) eqn:Ta; [|discriminate].
      intro H. injection H as <-. exact Ta.
  - destruct (Gemini.API_KEY e) as [a|]; cbn [Gemini.definedTruthy]; [|discriminate].
    destruct (truthy a) eqn:Ta; [|discriminate].
    intro H. injection H as <-. exact Ta.
Qed.

Lemma truthy_nonempty s : truthy s = true -> s <> [].
Proof. destruct s; [discriminate|discriminate]. Qed.

(** [getGeminiResponse] always answers: its promise is resolved, never
    rejected, with a text that is not empty, and that text is either the
    text of the service or one of the three fixed tagged replies. *)
Theorem getGeminiResponse_always_replies (e : Gemini.Env) (prompt : jsstring)
    (ai : option Gemini.GoogleGenAI) :
  exists v, fst (Gemini.getGeminiResponse e prompt ai) = Resolved v
    /\ v <> []
    /\ (In v [Gemini.NOT_CONFIGURED; Gemini.NO_TEXT; Gemini.API_ERROR]
        \/ exists client, Gemini.generateContent e client prompt = Gemini.Answer (Some v)).
Proof.
  assert (F : forall v, In v [Gemini.NOT_CONFIGURED; Gemini.NO_TEXT; Gemini.API_ERROR] -> v <> []).
  { intros v [<-|[<-|[<-|[]]]]; discriminate. }
  assert (C : forall client,
    exists v, fst (match Gemini.generateContent e client prompt with
                   | Gemini.Answer (Some text) =>
                       (Resolved (if truthy text then text else Gemini.NO_TEXT), Some client)
                   | Gemini.Answer None => (Resolved Gemini.NO_TEXT, Some client)
                   | Gemini.Throws => (Resolved Gemini.API_ERROR, Some client)
                   end) = Resolved v
      /\ v <> []
      /\ (In v [Gemini.NOT_CONFIGURED; Gemini.NO_TEXT; Gemini.API_ERROR]
          \/ exists client, Gemini.generateContent e client prompt = Gemini.Answer (Some v))).
  { intro client.
    destruct (Gemini.generateContent e client prompt) as [[t|]|] eqn:G; cbn [fst].
    - destruct (truthy t) eqn:T.
      + exists t. split; [reflexivity|]. split; [apply truthy_nonempty; exact T|].
        right. exists client. exact G.
      + exists Gemini.NO_TEXT. split; [reflexivity|]. split; [discriminate|].
        left. right. left. reflexivity.
    - exists Gemini.NO_TEXT. split; [reflexivity|]. split; [discriminate|].
      left. right. left. reflexivity.
    - exists Gemini.API_ERROR. split; [reflexivity|]. split; [discriminate|].
      left. right. right. left. reflexivity. }
  assert (U : exists v, fst (Resolved Gemini.NOT_CONFIGURED, @None Gemini.GoogleGenAI) = Resolved v
      /\ v <> []
      /\ (In v [Gemini.NOT_CONFIGURED; Gemini.NO_TEXT; Gemini.API_ERROR]
          \/ exists client, Gemini.generateContent e client prompt = Gemini.Answer (Some v))).
  { exists Gemini.NOT_CONFIGURED. split; [reflexivity|]. split; [discriminate|].
    left. left. reflexivity. }
  unfold Gemini.getGeminiResponse.
  destruct ai as [c|]; [apply C|].
  destruct (Gemini.getEnvKey e) as [k|]; [|exact U].
  destruct (Gemini.initializeGeminiClient e k None) as [c|]; [apply C|exact U].
Qed.

(** Starting without a client, [getGeminiResponse] gives the reply "not
    configured" and stays without a client exactly when no usable key is
    found (each of the two variables missing or the empty string) or the
    constructor of the client throws. *)
Theorem getGeminiResponse_unconfigured_iff (e : Gemini.Env) (prompt : jsstring) :
  (Gemini.getGeminiResponse e prompt None = (Resolved Gemini.NOT_CONFIGURED, None)
   <-> Gemini.getEnvKey e = None \/ Gemini.constructorThrows e = true)
  /\ (Gemini.getEnvKey e = None
      <-> (Gemini.VITE_API_KEY e = None \/ Gemini.VITE_API_KEY e = Some [])
          /\ (Gemini.API_KEY e = None \/ Gemini.API_KEY e = Some [])).
Proof.
  split.
  - split.
    + intro H. unfold Gemini.getGeminiResponse in H.
      destruct (Gemini.getEnvKey e) as [k|] eqn:K; [|left; reflexivity].
      right. unfold Gemini.initializeGeminiClient in H.
      rewrite (getEnvKey_truthy e k K) in H. cbn [negb] in H.
      destruct (Gemini.constructorThrows e); [reflexivity|].
      destruct (Gemini.generateContent e {| Gemini.apiKey := k |} prompt) as [[t|]|];
        discriminate.
    + intros [K|T]; unfold Gemini.getGeminiResponse.
      * rewrite K. reflexivity.
      * destruct (Gemini.getEnvKey e) as [k|] eqn:K; [|reflexivity].
        unfold Gemini.initializeGeminiClient.
        rewrite (getEnvKey_truthy e k K), T. reflexivity.
  - unfold Gemini.getEnvKey.
    destruct (Gemini.VITE_API_KEY e) as [[|c v]|], (Gemini.API_KEY e) as [[|d a]|];
      cbn [Gemini.definedTruthy truthy]; split;
      try discriminate; try (intros _; split; auto; fail); try reflexivity;
      try (intros [[H|H] [H'|H']]; discriminate).
Qed.

Lemma detectEmotion_always_replies_aux e gen image ai :
  exists v, fst (Vision.detectEmotion e gen image ai) = Resolved v.
Proof.
  unfold Vision.detectEmotion.
  destruct ai as [c|].
  - destruct (gen c image) as [[t|]|]; simpl; eauto.
  - destruct (Gemini.getEnvKey e) as [k|]; [|simpl; eauto].
    destruct (Gemini.initializeGeminiClient e k None) as [c|]; [|simpl; eauto].
    destruct (gen c image) as [[t|]|]; simpl; eauto.
Qed.

(** [detectEmotion] always answers too: resolved, never rejected, never
    empty; the text of the service or one of its three fixed replies. *)
Theorem detectEmotion_always_replies (e : Gemini.Env)
    (gen : Gemini.GoogleGenAI -> jsstring -> Gemini.GenerateResult)
    (image : jsstring) (ai : option Gemini.GoogleGenAI) :
  exists v, fst (Vision.detectEmotion e gen image ai) = Resolved v
    /\ v <> []
    /\ (In v [Vision.NEED_KEY; Vision.NO_TEXT; Vision.VISION_ERROR]
        \/ exists client, gen client image = Gemini.Answer (Some v)).
Proof.
  assert (C : forall client,
    exists v, fst (match gen client image with
                   | Gemini.Answer (Some text) =>
                       (Resolved (if truthy text then text else Vision.NO_TEXT), Some client)
                   | Gemini.Answer None => (Resolved Vision.NO_TEXT, Some client)
                   | Gemini.Throws => (Resolved Vision.VISION_ERROR, Some client)
                   end) = Resolved v
      /\ v <> []
      /\ (In v [Vision.NEED_KEY; Vision.NO_TEXT; Vision.VISION_ERROR]
          \/ exists client, gen client image = Gemini.Answer (Some v))).
  { intro client.
    destruct (gen client image) as [[t|]|] eqn:G; cbn [fst].
    - destruct (truthy t) eqn:T.
      + exists t. split; [reflexivity|]. split; [apply truthy_nonempty; exact T|].
        right. exists client. exact G.
      + exists Vision.NO_TEXT. split; [reflexivity|]. split; [discriminate|].
        left. right. left. reflexivity.
    - exists Vision.NO_TEXT. split; [reflexivity|]. split; [discriminate|].
      left. right. left. reflexivity.
    - exists Vision.VISION_ERROR. split; [reflexivity|]. split; [discriminate|].
      left. right. right. left. reflexivity. }
  assert (U : exists v, fst (Resolved Vision.NEED_KEY, @None Gemini.GoogleGenAI) = Resolved v
      /\ v <> []
      /\ (In v [Vision.NEED_KEY; Vision.NO_TEXT; Vision.VISION_ERROR]
          \/ exists client, gen client image = Gemini.Answer (Some v))).
  { exists Vision.NEED_KEY. split; [reflexivity|]. split; [discriminate|].
    left. left. reflexivity. }
  unfold Vision.detectEmotion.
  destruct ai as [c|]; [apply C|].
  destruct (Gemini.getEnvKey e) as [k|]; [|exact U].
  destruct (Gemini.initializeGeminiClient e k None) as [c|]; [apply C|exact U].
Qed.

(** ** Replies that start with a tag *)

Lemma startsWith_mismatch p : forall t body,
  mismatch p t = true -> startsWith p (t ++ body) = false.
Proof.
  induction p as [|x p IH]; intros [|y t] body H; try discriminate.
  simpl in H. simpl. destruct (x =? y)%N; [|reflexivity].
  simpl in H. rewrite (IH t body H). reflexivity.
Qed.

Lemma includes_skip_units (x : unit16) p t body :
  forallb (fun c => negb (x =? c)%N) t = true ->
  includes (t ++ body) (x :: p) = includes body (x :: p).
Proof.
  induction t as [|c t IH]; [reflexivity|].
  simpl. intro H. apply andb_true_iff in H. destruct H as [N H].
  apply negb_true_iff in N. rewrite N. cbn [andb orb]. apply IH. exact H.
Qed.

(** A tag in front of a text: a second tag occurs in the whole either
    right at the start or somewhere in the text after the first tag. *)
Lemma includes_tag_body T T' body :
  hd_error T = Some LBRACKET -> hd_error T' = Some LBRACKET ->
  forallb (fun c => negb (LBRACKET =? c)%N) (tl T) = true ->
  includes (T ++ body) T' = startsWith T' (T ++ body) || includes body T'.
Proof.
  destruct T as [|x t]; [discriminate|]. destruct T' as [|x' t']; [discriminate|].
  cbn [hd_error tl]. intros E E' H. injection E as ->. injection E' as ->.
  rewrite includes_unfold. f_equal. cbn [app].
  apply includes_skip_units. exact H.
Qed.

Lemma replace_prefix T body : replace (T ++ body) T [] = body.
Proof.
  rewrite replace_unfold, startsWith_prefix. cbn [app]. apply skipn_prefix.
Qed.

Ltac tag_tests H1 H2 H3 H4 H5 H6 :=
  unfold processEmotionAndText;
  repeat rewrite includes_tag_body by reflexivity;
  rewrite ?H1, ?H2, ?H3, ?H4, ?H5, ?H6;
  repeat rewrite startsWith_mismatch by reflexivity;
  rewrite ?startsWith_prefix; cbn [orb];
  rewrite replace_prefix; reflexivity.

(** A reply made of one of the six tags followed by a text that
    contains none of them is shown as that text, trimmed. *)
Theorem processEmotionAndText_tag_body (body : jsstring) :
  (forall T', In T' TAGS -> includes body T' = false) ->
  forall T, In T TAGS -> processEmotionAndText (T ++ body) = trim body.
Proof.
  intro H.
  assert (H1 : includes body (lit "[HAPPY]") = false) by (apply H; unfold TAGS; cbn; tauto).
  assert (H2 : includes body (lit "[SAD]") = false) by (apply H; unfold TAGS; cbn; tauto).
  assert (H3 : includes body (lit "[ANGRY]") = false) by (apply H; unfold TAGS; cbn; tauto).
  assert (H4 : includes body (lit "[SURPRISED]") = false) by (apply H; unfold TAGS; cbn; tauto).
  assert (H5 : includes body (lit "[THINKING]") = false) by (apply H; unfold TAGS; cbn; tauto).
  assert (H6 : includes body (lit "[NEUTRAL]") = false) by (apply H; unfold TAGS; cbn; tauto).
  intros T I. unfold TAGS in I. cbn [List.map In] in I.
  destruct I as [<-|[<-|[<-|[<-|[<-|[<-|[]]]]]]]; tag_tests H1 H2 H3 H4 H5 H6.
Qed.

Lemma processEmotionAndText_tag_body_witness :
  processEmotionAndText (lit "[HAPPY]" ++ lit " Namaste! I am Aarya. ")
  = trim (lit " Namaste! I am Aarya. ").
Proof.
  apply (processEmotionAndText_tag_body (lit " Namaste! I am Aarya. ")).
  - intros T' I. unfold TAGS in I. cbn [List.map In] in I.
    destruct I as [<-|[<-|[<-|[<-|[<-|[<-|[]]]]]]]; vm_compute; reflexivity.
  - unfold TAGS. cbn [List.map In]. left. reflexivity.
Defined.

Lemma dropWhile_length (p : unit16 -> bool) s : List.length (dropWhile p s) <= List.length s.
Proof.
  induction s as [|c s IH]; [simpl; lia|].
  simpl. destruct (p c); simpl; lia.
Qed.

Lemma trim_length s : List.length (trim s) <= List.length s.
Proof.
  unfold trim, trimEnd, trimStart. rewrite length_rev.
  pose proof (dropWhile_length isSpace (rev (dropWhile isSpace s))) as A.
  pose proof (dropWhile_length isSpace s) as B.
  rewrite length_rev in A. lia.
Qed.

Lemma replace_empty_length s p : List.length (replace s p []) <= List.length s.
Proof.
  induction s as [|c s IH]; rewrite replace_unfold.
  - destruct (startsWith p []); [cbn [app]; rewrite length_skipn|]; simpl; lia.
  - destruct (startsWith p (c :: s)).
    + cbn [app]. rewrite length_skipn. lia.
    + simpl. lia.
Qed.

(** The text shown for a reply is never longer than the reply, has no
    white space at either end, and is a fixed point of [trim]. *)
Theorem processEmotionAndText_clean (s : jsstring) :
  List.length (processEmotionAndText s) <= List.length s
  /\ trim (processEmotionAndText s) = processEmotionAndText s
  /\ (forall c, hd_error (processEmotionAndText s) = Some c -> isSpace c = false)
  /\ (forall c, hd_error (rev (processEmotionAndText s)) = Some c -> isSpace c = false).
Proof.
  rewrite processEmotionAndText_find.
  set (u := match find (includes s) TAGS with
            | Some T => replace s T []
            | None => s
            end).
  assert (L : List.length u <= List.length s).
  { unfold u. destruct (find (includes s) TAGS); [apply replace_empty_length|lia]. }
  split; [pose proof (trim_length u); lia|].
  split; [apply trim_idem|]. split.
  - intros c H. destruct (trim u) as [|d t] eqn:E; [discriminate|].
    injection H as ->. apply (trim_head u c t E).
  - intros c H. destruct (rev (trim u)) as [|d t] eqn:E; [discriminate|].
    injection H as ->. unfold trim in E. apply (trimEnd_last _ c t E).
Qed.

(** ** What a resolution leaves behind *)

Lemma getRandomDefaultResponse_defined rnd :
  (0 <= rnd)%Q -> (rnd < 1)%Q ->
  exists s, getRandomDefaultResponse rnd = Some s /\ In s DEFAULT_RESPONSES.
Proof.
  intros L U.
  destruct (default_index_bounds rnd L U) as (k & K & F & _).
  rewrite (getRandomDefaultResponse_index rnd k F).
  destruct (nth_error DEFAULT_RESPONSES k) as [s|] eqn:N.
  - exists s. split; [reflexivity|]. eapply nth_error_In. exact N.
  - apply nth_error_None in N. simpl in N. lia.
Qed.

(** Whatever happens (local answer, reply of the service, rejection),
    one call of the handler appends exactly two messages: the user's, with
    the text as typed, then one from the bot whose text is a string; the
    typing indicator is off at the end and the knowledge base is left as it
    was. *)
Theorem handleUserMessage_two_messages (r : App.Run) (text : jsstring) (st : State) :
  (0 <= random r)%Q -> (random r < 1)%Q ->
  exists bot answer,
    messages (handleUserMessage r text st)
    = messages st ++ [Message (toString (App.now r 0)) (Str text) "user" (App.now r 1); bot]
    /\ getProp bot "sender" = Str (lit "bot")
    /\ getProp bot "text" = Str answer
    /\ isTyping (handleUserMessage r text st) = false
    /\ knowledgeBase (handleUserMessage r text st) = knowledgeBase st.
Proof.
  intros L U. unfold handleUserMessage.
  cbn [knowledgeBase setIsTyping pushMessage].
  destruct (findBestResponse text (knowledgeBase st)) as [resp|] eqn:F;
    cbn [truthyOrNull].
  - destruct (truthy resp).
    + eexists. exists resp. cbn [messages isTyping knowledgeBase setIsTyping pushMessage logCall].
      rewrite <- app_assoc. split; [reflexivity|]. repeat split.
    + destruct (gemini r text) as [raw|].
      * eexists. exists (processEmotionAndText raw).
        cbn [messages isTyping knowledgeBase setIsTyping pushMessage logCall].
        rewrite <- app_assoc. split; [reflexivity|]. repeat split.
      * destruct (getRandomDefaultResponse_defined (random r) L U) as (s & E & _).
        eexists. exists s.
        cbn [messages isTyping knowledgeBase setIsTyping pushMessage logCall].
        rewrite <- app_assoc. split; [reflexivity|]. rewrite E. repeat split.
  - destruct (gemini r text) as [raw|].
    + eexists. exists (processEmotionAndText raw).
      cbn [messages isTyping knowledgeBase setIsTyping pushMessage logCall].
      rewrite <- app_assoc. split; [reflexivity|]. repeat split.
    + destruct (getRandomDefaultResponse_defined (random r) L U) as (s & E & _).
      eexists. exists s.
      cbn [messages isTyping knowledgeBase setIsTyping pushMessage logCall].
      rewrite <- app_assoc. split; [reflexivity|]. rewrite E. repeat split.
Qed.

Lemma handleUserMessage_two_messages_witness :
  exists bot answer,
    messages (handleUserMessage rejectingRun (lit "Hi there!") (freshState welcomeKB))
    = messages (freshState welcomeKB)
      ++ [Message (toString (App.now rejectingRun 0)) (Str (lit "Hi there!")) "user"
            (App.now rejectingRun 1); bot]
    /\ getProp bot "sender" = Str (lit "bot")
    /\ getProp bot "text" = Str answer
    /\ isTyping (handleUserMessage rejectingRun (lit "Hi there!") (freshState welcomeKB)) = false
    /\ knowledgeBase (handleUserMessage rejectingRun (lit "Hi there!") (freshState welcomeKB))
       = knowledgeBase (freshState welcomeKB).
Proof.
  apply (handleUserMessage_two_messages rejectingRun (lit "Hi there!") (freshState welcomeKB)).
  - vm_compute. discriminate.
  - vm_compute. reflexivity.
Defined.

(** A local answer is shown exactly as it is stored: no tag is taken out
    of it and it is not trimmed; the service is not called. *)
Theorem handleUserMessage_local_verbatim (r : App.Run) (text resp : jsstring) (st : State) :
  findBestResponse text (knowledgeBase st) = Some resp -> resp <> [] ->
  getProp (lastMessage (handleUserMessage r text st)) "text" = Str resp
  /\ getProp (lastMessage (handleUserMessage r text st)) "sender" = Str (lit "bot")
  /\ geminiCalls (handleUserMessage r text st) = geminiCalls st.
Proof.
  intros F NE. unfold handleUserMessage, lastMessage.
  cbn [knowledgeBase setIsTyping pushMessage]. rewrite F.
  destruct resp as [|c resp]; [congruence|]. cbn [truthyOrNull truthy].
  cbn [messages geminiCalls setIsTyping pushMessage]. rewrite last_last.
  repeat split.
Qed.

Lemma handleUserMessage_local_verbatim_witness :
  getProp (lastMessage (handleUserMessage rejectingRun (lit "Hi there!")
             (freshState welcomeKB))) "text" = Str (lit "Hello! I am Aarya AI.")
  /\ getProp (lastMessage (handleUserMessage rejectingRun (lit "Hi there!")
             (freshState welcomeKB))) "sender" = Str (lit "bot")
  /\ geminiCalls (handleUserMessage rejectingRun (lit "Hi there!") (freshState welcomeKB))
     = geminiCalls (freshState welcomeKB).
Proof.
  apply (handleUserMessage_local_verbatim rejectingRun (lit "Hi there!")
           (lit "Hello! I am Aarya AI.") (freshState welcomeKB)).
  - vm_compute. reflexivity.
  - discriminate.
Defined.

(** With [getGeminiResponse] as the awaited call the [catch] branch of
    the handler is dead: the outcome does not depend on [Math.random()],
    and when there is no local answer the text shown is the reply of
    [getGeminiResponse] with its tag taken out. *)
Theorem handleUserMessage_no_apology (e : Gemini.Env) (clock : nat -> Z)
    (rnd rnd' : Q) (text : jsstring) (st : State) :
  handleUserMessage (geminiRun e clock rnd) text st
  = handleUserMessage (geminiRun e clock rnd') text st
  /\ (truthyOrNull (findBestResponse text (knowledgeBase st)) = false ->
      exists v, fst (Gemini.getGeminiResponse e text None) = Resolved v
        /\ getProp (lastMessage (handleUserMessage (geminiRun e clock rnd) text st)) "text"
           = Str (processEmotionAndText v)).
Proof.
  destruct (getGeminiResponse_resolves e text None) as (v & V).
  split.
  - unfold handleUserMessage. cbn [knowledgeBase setIsTyping pushMessage].
    destruct (truthyOrNull (findBestResponse text (knowledgeBase st))); [reflexivity|].
    cbn [gemini geminiRun App.now]. rewrite V. reflexivity.
  - intro H. exists v. split; [exact V|].
    apply handleUserMessage_resolved; [exact H|]. cbn [gemini geminiRun]. exact V.
Qed.

(** ** The photo handler *)

(** With [detectEmotion] as the awaited call, a photo always gets the
    reply of [detectEmotion] with its tag taken out (the apology of the
    [catch] branch is never shown); the handler appends the fixed user
    message and that reply, calls neither the local matcher nor
    [getGeminiResponse], and without a key the reply asks for one. *)
Theorem handleEmotionAnalysis_reply (e : Gemini.Env)
    (gen : Gemini.GoogleGenAI -> jsstring -> Gemini.GenerateResult)
    (clock : nat -> Z) (image : jsstring) (st : State) :
  (exists v bot,
     fst (Vision.detectEmotion e gen image None) = Resolved v
     /\ messages (Emotion.handleEmotionAnalysis (visionRun e gen clock) image st)
        = messages st
          ++ [Message (toString (clock 0)) (Str Emotion.SCANNING) "user" (clock 1); bot]
     /\ getProp bot "sender" = Str (lit "bot")
     /\ getProp bot "text" = Str (processEmotionAndText v)
     /\ geminiCalls (Emotion.handleEmotionAnalysis (visionRun e gen clock) image st)
        = geminiCalls st
     /\ isTyping (Emotion.handleEmotionAnalysis (visionRun e gen clock) image st) = false)
  /\ (Gemini.getEnvKey e = None ->
      getProp (lastMessage (Emotion.handleEmotionAnalysis (visionRun e gen clock) image st))
        "text"
      = Str (lit "I need a Gemini API Key to see your emotion. Please configure it in Settings.")).
Proof.
  split.
  - destruct (detectEmotion_always_replies_aux e gen image None) as (v & V).
    exists v. eexists. split; [exact V|].
    unfold Emotion.handleEmotionAnalysis.
    cbn [Emotion.detect Emotion.now visionRun]. rewrite V.
    cbn [messages isTyping geminiCalls setIsTyping pushMessage].
    rewrite <- app_assoc. split; [reflexivity|]. repeat split.
  - intro K. unfold Emotion.handleEmotionAnalysis, lastMessage.
    cbn [Emotion.detect Emotion.now visionRun].
    unfold Vision.detectEmotion. rewrite K. cbn [fst].
    cbn [messages setIsTyping pushMessage]. rewrite last_last.
    vm_compute. reflexivity.
Qed.

(** ** The chat form *)

Lemma trim_nil_iff s : trim s = [] <-> forallb isSpace s = true.
Proof.
  split; [|apply trim_all_space].
  intro E. apply forallb_forall. intros c I.
  destruct (isSpace c) eqn:S; [reflexivity|].
  pose proof (trim_keeps s c I S) as J. rewrite E in J. destruct J.
Qed.

(** The form sends nothing when the input box holds only white space
    (the state is untouched and the box keeps its content); otherwise it
    hands the text to the handler as typed, not trimmed, and empties the
    box; a text of punctuation only is sent and goes to the service. *)
Theorem handleSubmit_guard (r : App.Run) (inputValue : jsstring) (st : State) :
  (forallb isSpace inputValue = true ->
     Chat.handleSubmit r inputValue st = (inputValue, st))
  /\ (forallb isSpace inputValue = false ->
     Chat.handleSubmit r inputValue st = ([], handleUserMessage r inputValue st)
     /\ (noWordChar (toLowerCase inputValue) = true ->
         geminiCalls (snd (Chat.handleSubmit r inputValue st))
         = geminiCalls st ++ [inputValue])).
Proof.
  unfold Chat.handleSubmit. split.
  - intro H. rewrite (trim_all_space inputValue H). reflexivity.
  - intro H.
    assert (T : truthy (trim inputValue) = true).
    { destruct (trim inputValue) eqn:E; [|reflexivity].
      apply trim_nil_iff in E. congruence. }
    rewrite T. cbn [negb]. split; [reflexivity|].
    intro W. cbn [snd]. apply handleUserMessage_fallback.
    rewrite findBestResponse_normalize_nil by (apply normalize_no_word; exact W).
    reflexivity.
Qed.

Lemma handleSubmit_guard_witness :
  Chat.handleSubmit rejectingRun (lit "   ") (freshState welcomeKB)
  = (lit "   ", freshState welcomeKB)
  /\ geminiCalls (snd (Chat.handleSubmit rejectingRun (lit " ?! ") (freshState welcomeKB)))
     = geminiCalls (freshState welcomeKB) ++ [lit " ?! "].
Proof.
  split.
  - apply (proj1 (handleSubmit_guard rejectingRun (lit "   ") (freshState welcomeKB))).
    reflexivity.
  - destruct (handleSubmit_guard rejectingRun (lit " ?! ") (freshState welcomeKB)) as [_ H].
    destruct (H eq_refl) as [_ G]. apply G. reflexivity.
Defined.

(** ** The training form *)

Lemma split_no_separator sep s : forall tok, In tok (split sep s) -> ~ In sep tok.
Proof.
  induction s as [|c s IH]; intros tok I.
  - simpl in I. destruct I as [<-|[]]. intros [].
  - simpl in I. destruct (N.eqb_spec c sep) as [->|NE].
    + destruct I as [<-|I]; [intros []|apply IH; exact I].
    + destruct (split sep s) as [|t ts] eqn:E.
      * destruct I as [<-|[]]. intros [H|[]]. congruence.
      * destruct I as [<-|I].
        -- intros [H|H]; [congruence|]. apply (IH t); [left; reflexivity|exact H].
        -- apply IH. right. exact I.
Qed.

Lemma keywordsArray_in newKeywords kw :
  In kw (Training.keywordsArray newKeywords) <->
  kw <> [] /\ exists piece, In piece (split Training.COMMA newKeywords) /\ kw = trim piece.
Proof.
  unfold Training.keywordsArray. rewrite filter_In, in_map_iff. split.
  - intros [(piece & E & I) L]. split.
    + destruct kw; [discriminate|discriminate].
    + exists piece. split; [exact I|congruence].
  - intros [NE (piece & I & ->)]. split.
    + exists piece. split; [reflexivity|exact I].
    + destruct (trim piece); [congruence|reflexivity].
Qed.

(** The form stores nothing when the topic, the keyword box or the
    response is empty; an entry it does store has that topic and that
    response, both non-empty, and keywords that are non-empty, trimmed and
    free of commas. *)
Theorem handleAdd_entry (newTopic newKeywords newResponse : jsstring) :
  (Training.handleAdd newTopic newKeywords newResponse = None
   <-> newTopic = [] \/ newKeywords = [] \/ newResponse = [])
  /\ (forall e, Training.handleAdd newTopic newKeywords newResponse = Some e ->
        topic e = newTopic /\ newTopic <> []
        /\ response e = newResponse /\ newResponse <> []
        /\ id e = None
        /\ (forall kw, In kw (keywords e) ->
              kw <> [] /\ trim kw = kw /\ ~ In Training.COMMA kw)).
Proof.
  unfold Training.handleAdd. split.
  - destruct newTopic, newKeywords, newResponse; cbn [truthy negb orb];
      split; try discriminate; try (intros [H|[H|H]]; discriminate); auto.
  - intros e H.
    destruct newTopic as [|a t]; [discriminate|].
    destruct newKeywords as [|b k]; [discriminate|].
    destruct newResponse as [|c r]; [discriminate|].
    cbn [truthy negb orb] in H. injection H as <-. cbn [topic response id keywords].
    repeat split; try discriminate.
    + apply keywordsArray_in in H. apply H.
    + apply keywordsArray_in in H. destruct H as [_ (piece & _ & ->)]. apply trim_idem.
    + apply keywordsArray_in in H. destruct H as [_ (piece & I & ->)].
      intro J. apply trim_in in J. exact (split_no_separator _ _ _ I J).
Qed.

Lemma lowerUnit_space c : isSpace c = true -> lowerUnit c = [c].
Proof.
  intro S. unfold lowerUnit.
  assert (U : isUpperAscii c = false).
  { destruct (isUpperAscii c) eqn:U; [|reflexivity]. exfalso. class_arith; lia. }
  assert (E1 : (c =? 304)%N = false).
  { apply N.eqb_neq. intros ->. discriminate. }
  assert (E2 : (c =? 8490)%N = false).
  { apply N.eqb_neq. intros ->. discriminate. }
  rewrite U, E1, E2. reflexivity.
Qed.

Lemma spaces_no_word w : forallb isSpace w = true -> noWordChar (toLowerCase w) = true.
Proof.
  unfold noWordChar, toLowerCase. induction w as [|c w IH]; [reflexivity|].
  cbn [forallb flat_map]. intro H. apply andb_true_iff in H. destruct H as [S H].
  rewrite (lowerUnit_space c S). cbn [app forallb].
  rewrite (space_not_word c S), (IH H). reflexivity.
Qed.

Lemma normalize_trim s : normalize (trim s) = normalize s.
Proof.
  destruct (dropWhile_split isSpace s) as (w1 & E1 & A1).
  destruct (trimEnd_prefix (dropWhile isSpace s)) as (w2 & E2 & A2).
  fold (trimStart s) in E1, E2. fold (trim s) in E2.
  rewrite E1 at 2. rewrite E2.
  rewrite (normalize_app_blank_l _ w1 (spaces_no_word w1 A1)).
  rewrite (normalize_app_blank_r _ w2 (spaces_no_word w2 A2)).
  reflexivity.
Qed.

(** What is typed in the keyword box matches as typed: if one of the
    pieces between commas has the same normal form as the user's input
    (and that form is not empty), the stored entry scores 100 for that
    input. *)
Theorem handleAdd_keyword_matches (newTopic newKeywords newResponse piece q : jsstring)
    (e : KnowledgeEntry) :
  Training.handleAdd newTopic newKeywords newResponse = Some e ->
  In piece (split Training.COMMA newKeywords) ->
  normalize piece = normalize q -> normalize q <> [] ->
  entryScore q e = 100.
Proof.
  intros H I E NE.
  assert (K : keywords e = Training.keywordsArray newKeywords).
  { unfold Training.handleAdd in H.
    destruct (negb (truthy newTopic) || negb (truthy newKeywords) || negb (truthy newResponse));
      [discriminate|].
    injection H as <-. reflexivity. }
  unfold entryScore, keywordScore, calculateScore. rewrite K.
  apply calculateScoreFrom_exact. apply existsb_exists.
  exists (trim piece). split.
  - apply keywordsArray_in. split; [|eauto].
    intro T. apply NE. rewrite <- E, <- normalize_trim, T. reflexivity.
  - unfold exactMatch. rewrite normalize_trim, E.
    destruct (normalize q); [congruence|]. cbn [truthy andb]. apply streq_eq. reflexivity.
Qed.

Lemma handleAdd_keyword_matches_witness :
  entryScore (lit "opening hours?")
    {| id := None;
       keywords := Training.keywordsArray (lit "Hours,  Opening Hours , when open");
       response := lit "We open at nine.";
       topic := lit "Hours";
       matchCount := None |} = 100.
Proof.
  apply (handleAdd_keyword_matches (lit "Hours") (lit "Hours,  Opening Hours , when open")
           (lit "We open at nine.") (lit "  Opening Hours ") (lit "opening hours?")).
  - reflexivity.
  - vm_compute. right. left. reflexivity.
  - vm_compute. reflexivity.
  - vm_compute. discriminate.
Defined.

(** ** The knowledge base in mock mode *)

Section SortByTopic.

Variable cmp : jsstring -> jsstring -> Z.

Lemma insertByTopic_perm x l : Permutation (Firebase.insertByTopic cmp x l) (x :: l).
Proof.
  induction l as [|y l IH]; [apply Permutation_refl|].
  simpl. destruct (0 <? cmp (topic y) (topic x))%Z; [apply Permutation_refl|].
  eapply perm_trans; [apply perm_skip; exact IH|apply perm_swap].
Qed.

Lemma fold_insert_perm l : forall acc,
  Permutation (fold_left (fun sorted x => Firebase.insertByTopic cmp x sorted) l acc)
              (acc ++ l).
Proof.
  induction l as [|x l IH]; intro acc; simpl.
  - rewrite app_nil_r. apply Permutation_refl.
  - eapply perm_trans; [apply IH|].
    eapply perm_trans; [apply Permutation_app_tail; apply insertByTopic_perm|].
    simpl. apply Permutation_middle.
Qed.

Lemma sortByTopic_perm l : Permutation (Firebase.sortByTopic cmp l) l.
Proof. apply (fold_insert_perm l []). Qed.

Hypothesis cmp_consistent : consistent cmp.

Lemma cmp_not_after a b : ~ (0 < cmp a b)%Z -> (cmp a b <= 0)%Z.
Proof. lia. Qed.

Lemma cmp_before a b : (0 < cmp a b)%Z -> (cmp b a <= 0)%Z.
Proof. intro H. apply (proj1 cmp_consistent) in H. lia. Qed.

Lemma cmp_after_trans a b c : (0 < cmp a c)%Z -> (cmp a b <= 0)%Z -> (0 < cmp b c)%Z.
Proof.
  intros H L. destruct (Z_lt_le_dec 0 (cmp b c)) as [G|G]; [exact G|].
  pose proof (proj2 cmp_consistent a b c L G). lia.
Qed.

Lemma insertByTopic_sorted x l :
  StronglySorted (topicLe cmp) l -> StronglySorted (topicLe cmp) (Firebase.insertByTopic cmp x l).
Proof.
  induction 1 as [|y l S IH F]; simpl.
  - constructor; constructor.
  - destruct (Z.ltb_spec 0 (cmp (topic y) (topic x))) as [A|A].
    + constructor; [constructor; assumption|].
      constructor; [apply cmp_before; exact A|].
      rewrite Forall_forall in *. intros z I. unfold topicLe.
      apply (proj2 cmp_consistent _ (topic y)); [apply cmp_before; exact A|apply F; exact I].
    + constructor; [exact IH|].
      rewrite Forall_forall in *. intros z I.
      apply (Permutation_in _ (insertByTopic_perm x l)) in I.
      destruct I as [<-|I]; [unfold topicLe; lia|apply F; exact I].
Qed.

Lemma fold_insert_sorted l : forall acc,
  StronglySorted (topicLe cmp) acc ->
  StronglySorted (topicLe cmp)
    (fold_left (fun sorted x => Firebase.insertByTopic cmp x sorted) l acc).
Proof.
  induction l as [|x l IH]; intros acc S; [exact S|].
  simpl. apply IH. apply insertByTopic_sorted. exact S.
Qed.

Lemma sortByTopic_sorted l : StronglySorted (topicLe cmp) (Firebase.sortByTopic cmp l).
Proof. apply fold_insert_sorted. constructor. Qed.

(** In front of entries that all come after it, an entry is inserted at
    the head. *)
Lemma insertByTopic_front x l :
  StronglySorted (topicLe cmp) l ->
  (forall y, hd_error l = Some y -> (0 < cmp (topic y) (topic x))%Z) ->
  Firebase.insertByTopic cmp x l = x :: l.
Proof.
  intros _ H. destruct l as [|y l]; [reflexivity|].
  simpl. specialize (H y eq_refl). apply Z.ltb_lt in H. rewrite H. reflexivity.
Qed.

Lemma filter_sorted (p : KnowledgeEntry -> bool) l :
  StronglySorted (topicLe cmp) l -> StronglySorted (topicLe cmp) (filter p l).
Proof.
  induction 1 as [|z l S IH F]; [constructor|].
  simpl. destruct (p z); [|exact IH].
  constructor; [exact IH|].
  rewrite Forall_forall in *. intros w I. apply filter_In in I. apply F. apply I.
Qed.

Lemma filter_insertByTopic (p : KnowledgeEntry -> bool) x l :
  StronglySorted (topicLe cmp) l ->
  filter p (Firebase.insertByTopic cmp x l) =
  if p x then Firebase.insertByTopic cmp x (filter p l) else filter p l.
Proof.
  induction 1 as [|y l S IH F].
  - simpl. destruct (p x); reflexivity.
  - cbn [Firebase.insertByTopic].
    destruct (Z.ltb_spec 0 (cmp (topic y) (topic x))) as [A|A].
    + change (filter p (x :: y :: l))
        with (if p x then x :: filter p (y :: l) else filter p (y :: l)).
      destruct (p x) eqn:Px; [|reflexivity].
      symmetry. apply insertByTopic_front.
      * apply filter_sorted. constructor; assumption.
      * intros z Hz.
        assert (I : In z (filter p (y :: l))).
        { destruct (filter p (y :: l)); [discriminate|].
          injection Hz as ->. left. reflexivity. }
        apply filter_In in I. destruct I as [[<-|I] _]; [exact A|].
        rewrite Forall_forall in F. apply (cmp_after_trans (topic y)); [exact A|].
        apply F. exact I.
    + cbn [filter]. destruct (p y) eqn:Py.
      * rewrite IH. destruct (p x); [|reflexivity].
        cbn [Firebase.insertByTopic].
        destruct (Z.ltb_spec 0 (cmp (topic y) (topic x))); [lia|reflexivity].
      * exact IH.
Qed.

Lemma filter_fold_insert (p : KnowledgeEntry -> bool) l : forall acc,
  StronglySorted (topicLe cmp) acc ->
  filter p (fold_left (fun sorted x => Firebase.insertByTopic cmp x sorted) l acc) =
  fold_left (fun sorted x => Firebase.insertByTopic cmp x sorted) (filter p l) (filter p acc).
Proof.
  induction l as [|x l IH]; intros acc S; [reflexivity|].
  cbn [fold_left filter]. rewrite IH by (apply insertByTopic_sorted; exact S).
  rewrite filter_insertByTopic by exact S.
  destruct (p x); reflexivity.
Qed.

Lemma filter_sortByTopic (p : KnowledgeEntry -> bool) l :
  filter p (Firebase.sortByTopic cmp l) = Firebase.sortByTopic cmp (filter p l).
Proof. apply (filter_fold_insert p l []). constructor. Qed.

(** Behind entries none of which comes after it, an entry is inserted at
    the end. *)
Lemma insertByTopic_back x l :
  Forall (fun y => topicLe cmp y x) l -> Firebase.insertByTopic cmp x l = l ++ [x].
Proof.
  induction 1 as [|y l L F IH]; [reflexivity|].
  simpl. unfold topicLe in L.
  destruct (Z.ltb_spec 0 (cmp (topic y) (topic x))); [lia|].
  rewrite IH. reflexivity.
Qed.

Lemma StronglySorted_app_Forall acc x l :
  StronglySorted (topicLe cmp) (acc ++ x :: l) -> Forall (fun y => topicLe cmp y x) acc.
Proof.
  induction acc as [|a acc IH]; intro S; [constructor|].
  simpl in S. inversion S as [|? ? S' F]; subst.
  constructor; [|apply IH; exact S'].
  rewrite Forall_forall in F. apply F. apply in_or_app. right. left. reflexivity.
Qed.

Lemma fold_insert_sorted_id l : forall acc,
  StronglySorted (topicLe cmp) (acc ++ l) ->
  fold_left (fun sorted x => Firebase.insertByTopic cmp x sorted) l acc = acc ++ l.
Proof.
  induction l as [|x l IH]; intros acc S; [symmetry; apply app_nil_r|].
  cbn [fold_left].
  rewrite (insertByTopic_back x acc (StronglySorted_app_Forall acc x l S)).
  rewrite IH; rewrite <- app_assoc; [reflexivity|exact S].
Qed.

Lemma sortByTopic_sorted_id l :
  StronglySorted (topicLe cmp) l -> Firebase.sortByTopic cmp l = l.
Proof. intro S. apply (fold_insert_sorted_id l []). exact S. Qed.

End SortByTopic.

Lemma hasId_iff target e : Firebase.hasId target e = true <-> id e = Some target.
Proof.
  unfold Firebase.hasId. destruct (id e) as [i|]; split; try discriminate.
  - intro H. apply streq_eq in H. congruence.
  - intro H. injection H as ->. apply streq_eq. reflexivity.
Qed.

Lemma currentEntries_listener b s :
  currentEntries (Firebase.setDbListener b s) = currentEntries s.
Proof.
  unfold currentEntries, Firebase.getMockDB. cbn [Firebase.dbItem Firebase.setDbListener
    Firebase.quotaExceeded Firebase.DEFAULT_KNOWLEDGE].
  destruct (Firebase.dbItem s); [destruct (Firebase.quotaExceeded s)| |]; reflexivity.
Qed.

(** In mock mode with a writable store, [addKnowledgeEntry] resolves and
    leaves in the store every entry that was there plus the new one under
    the id [mock_] + clock reading, nothing else; a registered listener is
    handed exactly the stored list; and with a consistent comparison the
    stored list is in topic order. *)
Theorem addKnowledgeEntry_mock (cmp : jsstring -> jsstring -> Z) (entry : KnowledgeEntry)
    (now : Z) (remote : Firebase.Result unit) (s : Firebase.Store) :
  Firebase.useMock s = true -> Firebase.quotaExceeded s = false ->
  exists stored s',
    Firebase.addKnowledgeEntry cmp entry now remote s = (Firebase.Ok tt, s')
    /\ Firebase.dbItem s' = Firebase.Json stored
    /\ currentEntries s' = stored
    /\ Permutation stored (currentEntries s ++ [Firebase.withMockId entry now])
    /\ Firebase.dbData s'
       = Firebase.dbData s ++ (if Firebase.mockDbListener s then [stored] else [])
    /\ (consistent cmp -> StronglySorted (topicLe cmp) stored).
Proof.
  intros M Q.
  exists (Firebase.sortByTopic cmp (currentEntries s ++ [Firebase.withMockId entry now])).
  unfold Firebase.addKnowledgeEntry, currentEntries, Firebase.getMockDB. rewrite M, Q.
  destruct (Firebase.dbItem s) as [|old|] eqn:D; cbn [fst];
    unfold Firebase.saveMockDB;
    cbn [Firebase.quotaExceeded Firebase.setDbItem Firebase.setDefaults Firebase.mockDbListener];
    rewrite Q; eexists; (split; [reflexivity|]);
    destruct (Firebase.mockDbListener s);
    cbn [Firebase.dbItem Firebase.dbData Firebase.onData Firebase.setDbItem
         Firebase.setDefaults Firebase.quotaExceeded fst];
    rewrite ?app_nil_r;
    (split; [reflexivity|]); (split; [reflexivity|]);
    (split; [apply sortByTopic_perm|]); (split; [reflexivity|]);
    intro C; apply sortByTopic_sorted; exact C.
Qed.

Lemma addKnowledgeEntry_mock_witness :
  exists stored s',
    Firebase.addKnowledgeEntry compareLength (mkEntry "Hours" ["opening hours"]%string "We open at nine.")
      1700000000000%Z (Firebase.Ok tt) loadedStore = (Firebase.Ok tt, s')
    /\ Firebase.dbItem s' = Firebase.Json stored
    /\ currentEntries s' = stored
    /\ Permutation stored
         (currentEntries loadedStore
            ++ [Firebase.withMockId (mkEntry "Hours" ["opening hours"]%string "We open at nine.") 1700000000000%Z])
    /\ Firebase.dbData s'
       = Firebase.dbData loadedStore
         ++ (if Firebase.mockDbListener loadedStore then [stored] else [])
    /\ (consistent compareLength -> StronglySorted (topicLe compareLength) stored).
Proof.
  apply (addKnowledgeEntry_mock compareLength); reflexivity.
Defined.

Lemma filter_keep_all {A : Type} (p : A -> bool) l :
  (forall x, In x l -> p x = true) -> filter p l = l.
Proof.
  induction l as [|x l IH]; intro H; [reflexivity|].
  simpl. rewrite (H x) by (left; reflexivity). f_equal.
  apply IH. intros y I. apply H. right. exact I.
Qed.

Lemma filter_idem {A : Type} (p : A -> bool) l : filter p (filter p l) = filter p l.
Proof.
  apply filter_keep_all. intros x I. apply filter_In in I. apply I.
Qed.

Lemma currentEntries_json s l :
  Firebase.dbItem s = Firebase.Json l -> currentEntries s = l.
Proof. intro D. unfold currentEntries, Firebase.getMockDB. rewrite D. reflexivity. Qed.

Lemma deleteKnowledgeEntry_mock_result target remote s :
  Firebase.useMock s = true -> Firebase.quotaExceeded s = false ->
  exists s',
    Firebase.deleteKnowledgeEntry target remote s = (Firebase.Ok tt, s')
    /\ Firebase.dbItem s'
       = Firebase.Json (filter (fun e => negb (Firebase.hasId target e)) (currentEntries s))
    /\ Firebase.useMock s' = true /\ Firebase.quotaExceeded s' = false.
Proof.
  intros M Q.
  unfold Firebase.deleteKnowledgeEntry, currentEntries, Firebase.getMockDB. rewrite M, Q.
  destruct (Firebase.dbItem s) as [|old|] eqn:D; cbn [fst];
    unfold Firebase.saveMockDB;
    cbn [Firebase.quotaExceeded Firebase.setDbItem Firebase.mockDbListener];
    rewrite Q; eexists; (split; [reflexivity|]);
    destruct (Firebase.mockDbListener s);
    cbn [Firebase.dbItem Firebase.onData Firebase.setDbItem
         Firebase.quotaExceeded Firebase.useMock];
    auto.
Qed.

(** In mock mode with a writable store, [deleteKnowledgeEntry] resolves
    and leaves exactly the entries whose id is not the one given (entries
    without an id are never deleted); if no entry has that id the stored
    list is unchanged, and deleting the same id again changes nothing. *)
Theorem deleteKnowledgeEntry_mock (target : jsstring) (remote : Firebase.Result unit)
    (s : Firebase.Store) :
  Firebase.useMock s = true -> Firebase.quotaExceeded s = false ->
  exists stored s',
    Firebase.deleteKnowledgeEntry target remote s = (Firebase.Ok tt, s')
    /\ Firebase.dbItem s' = Firebase.Json stored
    /\ (forall e, In e stored <-> In e (currentEntries s) /\ id e <> Some target)
    /\ ((forall e, In e (currentEntries s) -> id e <> Some target) ->
        stored = currentEntries s)
    /\ Firebase.dbItem (snd (Firebase.deleteKnowledgeEntry target remote s'))
       = Firebase.Json stored.
Proof.
  intros M Q.
  assert (K : forall e, negb (Firebase.hasId target e) = true <-> id e <> Some target).
  { intro e. rewrite negb_true_iff, <- hasId_iff.
    destruct (Firebase.hasId target e); split; congruence. }
  destruct (deleteKnowledgeEntry_mock_result target remote s M Q) as (s' & E & D & M' & Q').
  exists (filter (fun e => negb (Firebase.hasId target e)) (currentEntries s)), s'.
  split; [exact E|]. split; [exact D|]. split; [|split].
  - intro e. rewrite filter_In, K. reflexivity.
  - intro H. apply filter_keep_all. intros e I. apply K. apply H. exact I.
  - destruct (deleteKnowledgeEntry_mock_result target remote s' M' Q') as (s2 & E2 & D2 & _).
    rewrite E2. cbn [snd]. rewrite D2, (currentEntries_json s' _ D), filter_idem.
    reflexivity.
Qed.

Lemma deleteKnowledgeEntry_mock_witness :
  exists stored s',
    Firebase.deleteKnowledgeEntry (lit "2") (Firebase.Ok tt) loadedStore = (Firebase.Ok tt, s')
    /\ Firebase.dbItem s' = Firebase.Json stored
    /\ (forall e, In e stored <-> In e (currentEntries loadedStore) /\ id e <> Some (lit "2"))
    /\ ((forall e, In e (currentEntries loadedStore) -> id e <> Some (lit "2")) ->
        stored = currentEntries loadedStore)
    /\ Firebase.dbItem (snd (Firebase.deleteKnowledgeEntry (lit "2") (Firebase.Ok tt) s'))
       = Firebase.Json stored.
Proof.
  apply (deleteKnowledgeEntry_mock (lit "2")); reflexivity.
Defined.

Lemma compareLength_consistent : consistent compareLength.
Proof.
  unfold consistent, compareLength. split; intros; lia.
Qed.

(** Adding an entry and then deleting the id it was given restores the
    stored knowledge base exactly, provided the comparison is consistent,
    the stored list was in topic order and none of its entries already
    carried that id. *)
Theorem add_then_delete_restores (cmp : jsstring -> jsstring -> Z) (entry : KnowledgeEntry)
    (now : Z) (r1 r2 : Firebase.Result unit) (s : Firebase.Store)
    (old : list KnowledgeEntry) :
  consistent cmp ->
  Firebase.useMock s = true -> Firebase.quotaExceeded s = false ->
  Firebase.dbItem s = Firebase.Json old ->
  StronglySorted (topicLe cmp) old ->
  (forall e, In e old -> id e <> Some (lit "mock_" ++ toString now)) ->
  Firebase.dbItem
    (snd (Firebase.deleteKnowledgeEntry (lit "mock_" ++ toString now) r2
            (snd (Firebase.addKnowledgeEntry cmp entry now r1 s))))
  = Firebase.Json old.
Proof.
  intros C M Q D S F.
  unfold Firebase.addKnowledgeEntry, Firebase.getMockDB. rewrite M, D.
  unfold Firebase.saveMockDB at 1. rewrite Q. cbn [snd].
  set (stored := Firebase.sortByTopic cmp (old ++ [Firebase.withMockId entry now])).
  set (s1 := if Firebase.mockDbListener (Firebase.setDbItem (Firebase.Json stored) s)
             then Firebase.onData stored (Firebase.setDbItem (Firebase.Json stored) s)
             else Firebase.setDbItem (Firebase.Json stored) s).
  assert (P : Firebase.useMock s1 = true /\ Firebase.quotaExceeded s1 = false
              /\ Firebase.dbItem s1 = Firebase.Json stored).
  { unfold s1. destruct (Firebase.mockDbListener (Firebase.setDbItem (Firebase.Json stored) s));
      cbn [Firebase.useMock Firebase.quotaExceeded Firebase.dbItem Firebase.onData
           Firebase.setDbItem]; auto. }
  destruct P as (M1 & Q1 & D1).
  unfold Firebase.deleteKnowledgeEntry, Firebase.getMockDB. rewrite M1, D1.
  unfold Firebase.saveMockDB. rewrite Q1. cbn [snd].
  set (kept := filter _ stored).
  assert (E : kept = old).
  { unfold kept, stored. rewrite (filter_sortByTopic cmp C).
    rewrite filter_app. cbn [filter].
    assert (H : Firebase.hasId (lit "mock_" ++ toString now) (Firebase.withMockId entry now) = true)
      by (apply hasId_iff; reflexivity).
    rewrite H. cbn [negb]. rewrite app_nil_r.
    rewrite filter_keep_all.
    - apply (sortByTopic_sorted_id cmp). exact S.
    - intros e I. apply negb_true_iff.
      destruct (Firebase.hasId (lit "mock_" ++ toString now) e) eqn:X; [|reflexivity].
      apply hasId_iff in X. exfalso. exact (F e I X). }
  rewrite E.
  destruct (Firebase.mockDbListener (Firebase.setDbItem (Firebase.Json old) s1)); reflexivity.
Qed.

Lemma add_then_delete_restores_witness :
  Firebase.dbItem
    (snd (Firebase.deleteKnowledgeEntry (lit "mock_" ++ toString 1700000000000%Z) (Firebase.Ok tt)
            (snd (Firebase.addKnowledgeEntry compareLength
                    (mkEntry "Hours" ["opening hours"]%string "We open at nine.")
                    1700000000000%Z (Firebase.Ok tt)
                    (Firebase.setDbItem (Firebase.Json DEFAULT_KNOWLEDGE0) loadedStore)))))
  = Firebase.Json DEFAULT_KNOWLEDGE0.
Proof.
  apply (add_then_delete_restores compareLength).
  - exact compareLength_consistent.
  - reflexivity.
  - reflexivity.
  - reflexivity.
  - repeat constructor; unfold topicLe; vm_compute; discriminate.
  - intros e [<-|[<-|[]]]; vm_compute; discriminate.
Defined.

Lemma StronglySorted_nth {A : Type} (R : A -> A -> Prop) l :
  StronglySorted R l ->
  forall i j a b, i < j -> nth_error l i = Some a -> nth_error l j = Some b -> R a b.
Proof.
  induction 1 as [|x l S IH F]; intros i j a b L Ha Hb.
  - destruct i; discriminate.
  - destruct j as [|j]; [lia|]. simpl in Hb.
    destruct i as [|i].
    + simpl in Ha. injection Ha as ->.
      rewrite Forall_forall in F. apply F. eapply nth_error_In. exact Hb.
    + simpl in Ha. apply (IH i j); [lia|exact Ha|exact Hb].
Qed.

(** In mock mode [subscribeToKnowledgeBase] hands the listener, at once,
    the stored entries in topic order (for a consistent comparison); over
    that list the matcher breaks a tie for the highest score in favour of
    the entry whose topic comes first. *)
Theorem subscribe_topic_order (cmp : jsstring -> jsstring -> Z) (s : Firebase.Store) :
  consistent cmp -> Firebase.useMock s = true ->
  exists K,
    Firebase.dbData (Firebase.subscribeToKnowledgeBase cmp s) = Firebase.dbData s ++ [K]
    /\ Permutation K (currentEntries s)
    /\ StronglySorted (topicLe cmp) K
    /\ (forall q i e, firstBest q K i e ->
        forall e', In e' K -> entryScore q e' = entryScore q e ->
        (cmp (topic e) (topic e') <= 0)%Z).
Proof.
  intros C M.
  exists (Firebase.sortByTopic cmp (currentEntries s)).
  split; [|split; [apply sortByTopic_perm|split; [apply sortByTopic_sorted; exact C|]]].
  - unfold Firebase.subscribeToKnowledgeBase, currentEntries, Firebase.getMockDB.
    rewrite M. cbn [Firebase.dbItem Firebase.setDbListener Firebase.quotaExceeded
                    Firebase.DEFAULT_KNOWLEDGE].
    destruct (Firebase.dbItem s); [destruct (Firebase.quotaExceeded s)| |]; reflexivity.
  - intros q i e (N & _ & _ & F) e' I E.
    apply In_nth_error in I. destruct I as (j & J).
    destruct (Nat.lt_trichotomy j i) as [L|[->|L]].
    + specialize (F j e' L J). lia.
    + rewrite N in J. injection J as <-.
      destruct (Z_lt_le_dec 0 (cmp (topic e) (topic e))) as [G|G]; [|exact G].
      pose proof (proj1 (proj1 C _ _) G). lia.
    + exact (StronglySorted_nth (topicLe cmp) _ (sortByTopic_sorted cmp C _) i j e e' L N J).
Qed.

Lemma subscribe_topic_order_witness :
  exists K,
    Firebase.dbData (Firebase.subscribeToKnowledgeBase compareLength loadedStore)
    = Firebase.dbData loadedStore ++ [K]
    /\ Permutation K (currentEntries loadedStore)
    /\ StronglySorted (topicLe compareLength) K
    /\ (forall q i e, firstBest q K i e ->
        forall e', In e' K -> entryScore q e' = entryScore q e ->
        (compareLength (topic e) (topic e') <= 0)%Z).
Proof.
  apply (subscribe_topic_order compareLength loadedStore).
  - exact compareLength_consistent.
  - reflexivity.
Defined.

(** When [localStorage] has no item for the knowledge base: if it cannot
    be written, the mock knowledge base is empty (the defaults are not
    served) and [addKnowledgeEntry] rejects leaving the store as it was;
    if it can be written, [addKnowledgeEntry] works on the
    [DEFAULT_KNOWLEDGE] array itself, which from then on contains the added
    entry, so a later reset of the item brings the added entry back. *)
Theorem missing_item_behaviour (cmp : jsstring -> jsstring -> Z) (entry : KnowledgeEntry)
    (now : Z) (remote : Firebase.Result unit) (s : Firebase.Store) :
  Firebase.useMock s = true -> Firebase.dbItem s = Firebase.NoItem ->
  (Firebase.quotaExceeded s = true ->
     currentEntries s = []
     /\ Firebase.addKnowledgeEntry cmp entry now remote s = (Firebase.Err Firebase.Platform, s))
  /\ (Firebase.quotaExceeded s = false ->
     currentEntries s = Firebase.DEFAULT_KNOWLEDGE s
     /\ In (Firebase.withMockId entry now)
          (Firebase.DEFAULT_KNOWLEDGE (snd (Firebase.addKnowledgeEntry cmp entry now remote s)))
     /\ In (Firebase.withMockId entry now)
          (currentEntries
             (Firebase.setDbItem Firebase.NoItem
                (snd (Firebase.addKnowledgeEntry cmp entry now remote s))))).
Proof.
  intros M D. split; intro Q.
  - unfold currentEntries, Firebase.addKnowledgeEntry, Firebase.getMockDB.
    rewrite M, D, Q. unfold Firebase.saveMockDB. rewrite Q. split; reflexivity.
  - assert (I : In (Firebase.withMockId entry now)
                  (Firebase.sortByTopic cmp
                     (Firebase.DEFAULT_KNOWLEDGE s ++ [Firebase.withMockId entry now]))).
    { apply (Permutation_in _ (Permutation_sym (sortByTopic_perm cmp _))).
      apply in_or_app. right. left. reflexivity. }
    unfold currentEntries, Firebase.addKnowledgeEntry, Firebase.getMockDB.
    rewrite M, D, Q. unfold Firebase.saveMockDB.
    cbn [Firebase.quotaExceeded Firebase.setDbItem Firebase.setDefaults
         Firebase.mockDbListener]. rewrite Q.
    destruct (Firebase.mockDbListener s);
      cbn [snd fst Firebase.DEFAULT_KNOWLEDGE Firebase.onData Firebase.setDbItem
           Firebase.setDefaults Firebase.dbItem Firebase.quotaExceeded];
      rewrite ?Q; cbn [fst]; auto.
Qed.

Lemma missing_item_behaviour_witness :
  In (Firebase.withMockId (mkEntry "Hours" ["opening hours"]%string "We open at nine.")
        1700000000000%Z)
     (currentEntries
        (Firebase.setDbItem Firebase.NoItem
           (snd (Firebase.addKnowledgeEntry compareLength
                   (mkEntry "Hours" ["opening hours"]%string "We open at nine.")
                   1700000000000%Z (Firebase.Ok tt) loadedStore)))).
Proof.
  destruct (missing_item_behaviour compareLength
              (mkEntry "Hours" ["opening hours"]%string "We open at nine.")
              1700000000000%Z (Firebase.Ok tt) loadedStore eq_refl eq_refl) as [_ H].
  apply (H eq_refl).
Defined.

(** ** Signing in, in mock mode *)

Lemma split_hd sep s :
  In sep s ->
  exists name rest, s = name ++ sep :: rest /\ ~ In sep name
                    /\ hd [] (split sep s) = name.
Proof.
  induction s as [|c s IH]; intro I; [destruct I|].
  simpl. destruct (N.eqb_spec c sep) as [->|NE].
  - exists [], s. split; [reflexivity|]. split; [intros []|reflexivity].
  - destruct I as [E|I]; [congruence|].
    destruct (IH I) as (name & rest & E & N & H).
    exists (c :: name), rest. split; [simpl; congruence|]. split.
    + intros [X|X]; [congruence|exact (N X)].
    + destruct (split sep s) as [|t ts]; simpl in H |- *; congruence.
Qed.

Lemma includes_unit s c : includes s [c] = true <-> In c s.
Proof.
  rewrite includes_iff. split.
  - intros (a & b & ->). apply in_or_app. right. left. reflexivity.
  - intro I. apply in_split in I. destruct I as (a & b & ->). exists a, b. reflexivity.
Qed.

(** In mock mode with a writable store, [loginUser] succeeds exactly
    when the e-mail address contains an at sign, whatever the password;
    the user it returns and stores has the address as typed and, as
    display name, the part of the address before its first at sign; an
    address without at sign is rejected with "Invalid email" and nothing
    is stored. *)
Theorem loginUser_mock (email pass : jsstring) (now : Z)
    (remote : Firebase.Result Firebase.User) (s : Firebase.Store) :
  Firebase.useMock s = true -> Firebase.quotaExceeded s = false ->
  (~ In Firebase.AT_SIGN email ->
     Firebase.loginUser email pass now remote s
     = (Firebase.Err (Firebase.Thrown (lit "Invalid email")), s))
  /\ (In Firebase.AT_SIGN email ->
     exists name rest user s',
       Firebase.loginUser email pass now remote s = (Firebase.Ok user, s')
       /\ email = name ++ Firebase.AT_SIGN :: rest
       /\ ~ In Firebase.AT_SIGN name
       /\ Firebase.displayName user = Some name
       /\ Firebase.email user = Some email
       /\ Firebase.uid user = lit "mock_" ++ toString now
       /\ Firebase.userItem s' = Firebase.Json user).
Proof.
  intros M Q. unfold Firebase.loginUser. rewrite M, Q. split; intro I.
  - destruct (includes email [Firebase.AT_SIGN]) eqn:X; [|reflexivity].
    apply includes_unit in X. contradiction.
  - rewrite (proj2 (includes_unit email Firebase.AT_SIGN) I). cbn [negb].
    destruct (split_hd Firebase.AT_SIGN email I) as (name & rest & E & N & H).
    exists name, rest. eexists. eexists. split; [reflexivity|].
    split; [exact E|]. split; [exact N|].
    cbn [Firebase.displayName Firebase.email Firebase.uid].
    split; [rewrite H; reflexivity|]. split; [reflexivity|]. split; [reflexivity|].
    destruct (Firebase.mockAuthListener
                (Firebase.setUserItem
                   (Firebase.Json
                      {| Firebase.uid := lit "mock_" ++ toString now;
                         Firebase.email := Some email;
                         Firebase.displayName := Some (hd [] (split Firebase.AT_SIGN email)) |})
                   s)); reflexivity.
Qed.

Lemma loginUser_mock_witness :
  exists name rest user s',
    Firebase.loginUser (lit "asha@example.com") (lit "secret") 1700000000000%Z
      (Firebase.Err Firebase.Platform) loadedStore = (Firebase.Ok user, s')
    /\ lit "asha@example.com" = name ++ Firebase.AT_SIGN :: rest
    /\ ~ In Firebase.AT_SIGN name
    /\ Firebase.displayName user = Some name
    /\ Firebase.email user = Some (lit "asha@example.com")
    /\ Firebase.uid user = lit "mock_" ++ toString 1700000000000%Z
    /\ Firebase.userItem s' = Firebase.Json user.
Proof.
  destruct (loginUser_mock (lit "asha@example.com") (lit "secret") 1700000000000%Z
              (Firebase.Err Firebase.Platform) loadedStore eq_refl eq_refl) as [_ H].
  apply H. vm_compute. do 4 right. left. reflexivity.
Defined.

(** The mock session survives a reload and ends with [logoutAdmin]:
    after [registerUser], or a [loginUser] that succeeded, a new
    [subscribeToAuth] is called back with that user; after [logoutAdmin] it
    is called back with [null]. *)
Theorem mock_session_round_trip (email pass name : jsstring) (now : Z)
    (remote : Firebase.Result Firebase.User) (r : Firebase.Result unit)
    (s : Firebase.Store) :
  Firebase.useMock s = true -> Firebase.quotaExceeded s = false ->
  (exists user s1,
     Firebase.registerUser email pass name now remote s = (Firebase.Ok user, s1)
     /\ Firebase.authData (Firebase.subscribeToAuth s1)
        = Firebase.authData s1 ++ [Some user]
     /\ Firebase.authData (Firebase.subscribeToAuth (snd (Firebase.logoutAdmin r s1)))
        = Firebase.authData (snd (Firebase.logoutAdmin r s1)) ++ [None])
  /\ (forall user s1,
     Firebase.loginUser email pass now remote s = (Firebase.Ok user, s1) ->
     Firebase.authData (Firebase.subscribeToAuth s1)
     = Firebase.authData s1 ++ [Some user]
     /\ Firebase.authData (Firebase.subscribeToAuth (snd (Firebase.logoutAdmin r s1)))
        = Firebase.authData (snd (Firebase.logoutAdmin r s1)) ++ [None]).
Proof.
  intros M Q.
  assert (G : forall user s0 s1,
             Firebase.useMock s0 = true ->
             s1 = (if Firebase.mockAuthListener (Firebase.setUserItem (Firebase.Json user) s0)
                   then Firebase.onAuth (Some user) (Firebase.setUserItem (Firebase.Json user) s0)
                   else Firebase.setUserItem (Firebase.Json user) s0) ->
             Firebase.authData (Firebase.subscribeToAuth s1)
             = Firebase.authData s1 ++ [Some user]
             /\ Firebase.authData (Firebase.subscribeToAuth (snd (Firebase.logoutAdmin r s1)))
                = Firebase.authData (snd (Firebase.logoutAdmin r s1)) ++ [None]).
  { intros user s0 s1 M0 ->.
    unfold Firebase.subscribeToAuth, Firebase.logoutAdmin.
    cbn [Firebase.mockAuthListener Firebase.setUserItem].
    destruct (Firebase.mockAuthListener s0) eqn:L;
      cbn [Firebase.useMock Firebase.onAuth Firebase.setUserItem Firebase.setAuthListener
           Firebase.userItem Firebase.authData Firebase.mockAuthListener snd];
      rewrite ?M0, ?L;
      cbn [Firebase.useMock Firebase.onAuth Firebase.setUserItem Firebase.setAuthListener
           Firebase.userItem Firebase.authData Firebase.mockAuthListener snd];
      rewrite ?M0;
      cbn [Firebase.useMock Firebase.onAuth Firebase.setUserItem Firebase.setAuthListener
           Firebase.userItem Firebase.authData Firebase.mockAuthListener snd];
      split; reflexivity. }
  split.
  - unfold Firebase.registerUser. rewrite M, Q.
    eexists. eexists. split; [reflexivity|]. apply (G _ s); [exact M|reflexivity].
  - intros user s1 H. unfold Firebase.loginUser in H. rewrite M, Q in H.
    destruct (negb (includes email [Firebase.AT_SIGN])); [discriminate|].
    injection H as <- <-. apply (G _ s); [exact M|reflexivity].
Qed.

Lemma mock_session_round_trip_witness :
  exists user s1,
    Firebase.registerUser (lit "asha@example.com") (lit "secret") (lit "Asha")
      1700000000000%Z (Firebase.Err Firebase.Platform) loadedStore = (Firebase.Ok user, s1)
    /\ Firebase.authData (Firebase.subscribeToAuth s1)
       = Firebase.authData s1 ++ [Some user]
    /\ Firebase.authData
         (Firebase.subscribeToAuth (snd (Firebase.logoutAdmin (Firebase.Ok tt) s1)))
       = Firebase.authData (snd (Firebase.logoutAdmin (Firebase.Ok tt) s1)) ++ [None].
Proof.
  apply (proj1 (mock_session_round_trip (lit "asha@example.com") (lit "secret") (lit "Asha")
                  1700000000000%Z (Firebase.Err Firebase.Platform) (Firebase.Ok tt)
                  loadedStore eq_refl eq_refl)).
Defined.
